(** * custom-object-manager: a shallow embedding of src/src/cli.ts

    The CLI keeps local custom-object schemas in sync with the remote
    schema registry.  This development embeds:
    - the JSON values the code manipulates, with JavaScript's strict
      equality (objects and arrays compare by identity), truthiness and
      property access;
    - the reconciliation engine of [updateSchema] ([shouldContainAll],
      [validateOptions], [toDelete], [toCreate], [toUpdate]);
    - the three command flows [createSchemas], [deleteSchemas] and
      [updateSchemas] as programs of a small trace-and-exception monad,
      the remote service being an oracle that answers each request. *)

From Stdlib Require Import ZArith Ascii String List Bool.
From stdpp Require Import base gmap strings list pretty.
Import ListNotations.
Open Scope string_scope.
#[local] Set Warnings "-register-all".

(** A thrown JavaScript exception is [None]; [let? x := m in k] runs [k]
    on the value of [m] and propagates a throw. *)
Notation "'let?' x := m 'in' k" :=
  (match m with Some x => k | None => None end)
  (at level 200, x name, m at level 200, k at level 200).

(* ------------------------------------------------------------------ *)
(** ** JSON values as the JavaScript code sees them *)

(** A parsed JSON value.  Arrays and objects carry an allocation
    identity: JavaScript's [===] compares them by reference, so two
    values parsed separately are never identical even with equal
    contents.  Numbers are kept to integers (no NaN can come out of
    JSON.parse). *)
Inductive jval : Type :=
| JNull
| JBool (b : bool)
| JNum (z : Z)
| JStr (s : string)
| JArr (id : nat) (elems : list jval)
| JObj (id : nat) (fields : list (string * jval)).

(** A JavaScript object read from JSON: its own fields in key order. *)
Definition obj := list (string * jval).

(** [o[k]]: [None] is [undefined]. *)
Fixpoint obj_get (o : obj) (k : string) : option jval :=
  match o with
  | [] => None
  | (k', v) :: o' => if String.eqb k k' then Some v else obj_get o' k
  end.

(** [Object.keys(o)]. *)
Definition obj_keys (o : obj) : list string := map fst o.

(** [v.k] on a value: reading a property of [null] throws (outer
    [None]); primitives and arrays have no [label]/[value] field. *)
Definition js_get (v : jval) (k : string) : option (option jval) :=
  match v with
  | JNull => None
  | JObj _ fs => Some (obj_get fs k)
  | _ => Some None
  end.

(** [a === b] on possibly-undefined values. *)
Definition strict_eq (a b : option jval) : bool :=
  match a, b with
  | None, None => true
  | Some JNull, Some JNull => true
  | Some (JBool x), Some (JBool y) => Bool.eqb x y
  | Some (JNum x), Some (JNum y) => Z.eqb x y
  | Some (JStr x), Some (JStr y) => String.eqb x y
  | Some (JArr i _), Some (JArr j _) => Nat.eqb i j
  | Some (JObj i _), Some (JObj j _) => Nat.eqb i j
  | _, _ => false
  end.

(** JavaScript truthiness. *)
Definition truthy (v : option jval) : bool :=
  match v with
  | None | Some JNull => false
  | Some (JBool b) => b
  | Some (JNum z) => negb (Z.eqb z 0)
  | Some (JStr s) => negb (String.eqb s "")
  | Some (JArr _ _) | Some (JObj _ _) => true
  end.

(** [s.includes(sub)] on a string. *)
Fixpoint str_includes (s sub : string) : bool :=
  String.prefix sub s ||
  match s with
  | EmptyString => false
  | String _ s' => str_includes s' sub
  end.

(** [v.includes(sub)]: strings search substrings, arrays search
    elements; on anything else [includes] is missing and the call throws. *)
Definition js_includes (v : option jval) (sub : string) : option bool :=
  match v with
  | Some (JStr s) => Some (str_includes s sub)
  | Some (JArr _ l) => Some (existsb (fun x => strict_eq (Some x) (Some (JStr sub))) l)
  | _ => None
  end.

(* ------------------------------------------------------------------ *)
(** ** Array callbacks with exceptions

    A callback may throw; [None] is a thrown exception, which aborts the
    whole array method as in JavaScript. *)

(** [l.every(f)]: stops at the first falsy answer. *)
Fixpoint every_list (l : list jval) (f : jval -> option bool) : option bool :=
  match l with
  | [] => Some true
  | x :: l' => let? r := f x in if r then every_list l' f else Some false
  end.

(** [l.find(p)]: the first element the predicate accepts, else [undefined]. *)
Fixpoint find_list (l : list jval) (p : jval -> option bool) : option (option jval) :=
  match l with
  | [] => Some None
  | x :: l' => let? r := p x in if r then Some (Some x) else find_list l' p
  end.

(** [l.filter(p)] with a throwing predicate. *)
Fixpoint filter_m {A} (p : A -> option bool) (l : list A) : option (list A) :=
  match l with
  | [] => Some []
  | x :: l' => let? r := p x in let? rest := filter_m p l' in Some (if r then x :: rest else rest)
  end.

(* ------------------------------------------------------------------ *)
(** ** shouldContainAll and validateOptions (cli.ts lines 133-146) *)

(** [bOption.label === aOption.label && bOption.value === aOption.value] *)
Definition option_match (aOption bOption : jval) : option bool :=
  let? bl := js_get bOption "label" in
  let? al := js_get aOption "label" in
  if strict_eq bl al then
    let? bv := js_get bOption "value" in
    let? av := js_get aOption "value" in
    Some (strict_eq bv av)
  else Some false.

(** [a.every(aOption => b.find(bOption => ...))]: [every] tests the
    truthiness of the element [find] returns.  Calling [every] or [find]
    on a non-array throws. *)
Definition shouldContainAll (a b : option jval) : option bool :=
  match a with
  | Some (JArr _ la) =>
      every_list la (fun aOption =>
        match b with
        | Some (JArr _ lb) =>
            let? found := find_list lb (option_match aOption) in
            Some (truthy found)
        | _ => None
        end)
  | _ => None
  end.

(** [shouldContainAll(e, c) && shouldContainAll(c, e)], short-circuit. *)
Definition validateOptions (existingOptions currentOptions : option jval) : option bool :=
  let? r := shouldContainAll existingOptions currentOptions in
  if r then shouldContainAll currentOptions existingOptions else Some false.

(* ------------------------------------------------------------------ *)
(** ** The reconciliation of updateSchema (cli.ts lines 148-176) *)

Definition prop_name (p : obj) : option jval := obj_get p "name".

(** Truthiness of the result of [find] on a list of objects. *)
Definition found {A} (o : option A) : bool :=
  match o with Some _ => true | None => false end.

(** [props.find(prop => prop.name === name)]; property objects are
    truthy, so [!find(...)] tests absence. *)
Definition find_by_name (props : list obj) (name : option jval) : option obj :=
  List.find (fun p => strict_eq (prop_name p) name) props.

(** [!(name.includes("hs_") || name.includes("hubspot_")) &&
     !updatedProperties.find(prop => prop.name === name)] *)
Definition delete_pred (updatedProperties : list obj) (p : obj) : option bool :=
  let name := prop_name p in
  let? r1 := js_includes name "hs_" in
  if r1 then Some false else
  let? r2 := js_includes name "hubspot_" in
  if r2 then Some false else
  Some (negb (found (find_by_name updatedProperties name))).

Definition toDelete (updatedProperties currentProperties : list obj) : option (list obj) :=
  filter_m (delete_pred updatedProperties) currentProperties.

Definition toCreate (updatedProperties currentProperties : list obj) : list obj :=
  List.filter (fun u => negb (found (find_by_name currentProperties (prop_name u))))
    updatedProperties.

(** One step of the [reduce] over [Object.keys(updatedProperty)]. *)
Definition field_step (updatedProperty existingProperty : obj) (acc : bool) (curr : string)
  : option bool :=
  if acc then Some acc else
  match obj_get updatedProperty curr with
  | Some (JArr i l) =>
      let? r := validateOptions (Some (JArr i l)) (obj_get existingProperty curr) in
      Some (negb r)
  | v => Some (negb (strict_eq v (obj_get existingProperty curr)))
  end.

Fixpoint fold_m (f : bool -> string -> option bool) (acc : bool) (ks : list string)
  : option bool :=
  match ks with
  | [] => Some acc
  | k :: ks' => acc' ← f acc k; fold_m f acc' ks'
  end.

Definition update_pred (currentProperties : list obj) (updatedProperty : obj) : option bool :=
  match find_by_name currentProperties (prop_name updatedProperty) with
  | None => Some false
  | Some existingProperty =>
      fold_m (field_step updatedProperty existingProperty) false (obj_keys updatedProperty)
  end.

Definition toUpdate (updatedProperties currentProperties : list obj) : option (list obj) :=
  filter_m (update_pred currentProperties) updatedProperties.

(** The three lists, computed in the order of the source. *)
Definition reconcile (updatedProperties currentProperties : list obj)
  : option (list obj * list obj * list obj) :=
  let? d := toDelete updatedProperties currentProperties in
  let c := toCreate updatedProperties currentProperties in
  let? u := toUpdate updatedProperties currentProperties in
  Some (d, c, u).

(* ------------------------------------------------------------------ *)
(** ** Remote requests, log lines and the flow monad *)

(** [String(v)], as [`${v}`] converts the values the code interpolates:
    an array is [join(",")] of its elements, where [null] (and
    [undefined]) elements give the empty string. *)
Fixpoint js_str_val (v : jval) : string :=
  match v with
  | JNull => "null"
  | JBool true => "true"
  | JBool false => "false"
  | JNum z => pretty z
  | JStr s => s
  | JArr _ l =>
      (fix join (l : list jval) : string :=
         match l with
         | [] => ""
         | x :: l' =>
             (match x with JNull => "" | _ => js_str_val x end) ++
             match l' with [] => "" | _ => "," ++ join l' end
         end) l
  | JObj _ _ => "[object Object]"
  end.

Definition js_str (v : option jval) : string :=
  match v with
  | None => "undefined"
  | Some x => js_str_val x
  end.

Definition str_opt (v : option string) : string :=
  match v with Some s => s | None => "undefined" end.

(** The HTTP calls the CLI issues, as method and path (with the payload
    where the remote answer may depend on it). *)
Inductive request : Type :=
| PostSchema (name : string)                          (* POST /crm/v3/schemas *)
| DeleteSchema (objectTypeId : string)                (* DELETE /crm/v3/schemas/{id} *)
| PurgeSchema (objectTypeId : string)                 (* DELETE /crm/v3/schemas/{id}/purge *)
| PostAssociation (fromId toId name : string)         (* POST /crm/v3/schemas/{from}/associations *)
| DeleteProperty (objectTypeId pname : string)        (* DELETE /properties/v2/{id}/properties/named/{p} *)
| PostProperty (objectTypeId : string) (body : obj)   (* POST /properties/v2/{id}/properties *)
| PatchProperty (objectTypeId pname : string) (body : obj). (* PATCH .../named/{p} *)

(** Observable behaviour: console lines and issued requests, in order. *)
Inductive event : Type :=
| ELog (msg : string)
| ELogError
| EReq (r : request).

(** A computation appends to the trace and either returns a value or
    throws ([None]): an exception that no [catch] handles ends the
    command's async action, i.e. the process. *)
Definition M (A : Type) : Type := list event -> list event * option A.

Definition retM {A} (x : A) : M A := fun tr => (tr, Some x).
Definition bindM {A B} (m : M A) (k : A -> M B) : M B :=
  fun tr => match m tr with
            | (tr', Some x) => k x tr'
            | (tr', None) => (tr', None)
            end.
Definition throwM {A} : M A := fun tr => (tr, None).
Definition emit (e : event) : M unit := fun tr => ((tr ++ [e])%list, Some tt).
(** [try { m } catch { h }] *)
Definition catchM {A} (m : M A) (h : M A) : M A :=
  fun tr => match m tr with
            | (tr', Some x) => (tr', Some x)
            | (tr', None) => h tr'
            end.

Notation "'do' x <- m ; k" := (bindM m (fun x => k))
  (at level 200, x name, m at level 100, k at level 200).
Notation "m >>> k" := (bindM m (fun _ => k))
  (at level 100, right associativity).

(** [for (const x of l) { await body(x) }] *)
Fixpoint for_each {A} (body : A -> M unit) (l : list A) : M unit :=
  match l with
  | [] => retM tt
  | x :: l' => body x >>> for_each body l'
  end.

(** Meta-data of one remote object type held in the schema index (the
    objects of [data.results] keyed by name, or the [{ objectTypeId }]
    records the create flow stores). *)
Record entry : Type := {
  e_objectTypeId : option string;
  e_name : option string;
  e_properties : option (list obj)
}.

(** The members every plain object inherits from [Object.prototype]. *)
Definition object_prototype_methods : list string :=
  ["constructor"; "__defineGetter__"; "__defineSetter__"; "hasOwnProperty";
   "__lookupGetter__"; "__lookupSetter__"; "isPrototypeOf"; "propertyIsEnumerable";
   "toString"; "valueOf"; "toLocaleString"].

(** [meta[k]] for a key [k] that is not an own key of the index ([keyBy]
    builds a plain [{}]): the inherited member, if any.  The methods are
    functions (named [k], [constructor] being [Object]) and [__proto__]
    is [Object.prototype]: all truthy, none with an [objectTypeId] or a
    [properties] member. *)
Definition proto_member (k : string) : option entry :=
  if String.eqb k "__proto__" then
    Some {| e_objectTypeId := None; e_name := None; e_properties := None |}
  else if existsb (String.eqb k) object_prototype_methods then
    Some {| e_objectTypeId := None;
            e_name := Some (if String.eqb k "constructor" then "Object" else k);
            e_properties := None |}
  else None.

(** [meta[k]]: an own key first, then the prototype chain. *)
Definition index_get (meta : gmap string entry) (k : string) : option entry :=
  match meta !! k with
  | Some e => Some e
  | None => proto_member k
  end.

(** The parsed body of a local schema file. *)
Record local_schema : Type := {
  ls_name : string;
  ls_associations : option (list string);
  ls_properties : option (list obj)
}.

(** A matched file: the identifier captured by [objectTypeRegex] and the
    file's parsed JSON. *)
Record local_file : Type := {
  lf_objectType : string;
  lf_schema : local_schema
}.

Record association : Type := {
  a_name : string;
  a_fromObjectTypeId : string;
  a_toObjectTypeId : string
}.

(** Characters that make lodash read a string path as several keys. *)
Definition path_char (c : Ascii.ascii) : bool :=
  Ascii.eqb c "."%char || Ascii.eqb c "["%char || Ascii.eqb c "]"%char.

Fixpoint has_path_char (s : string) : bool :=
  match s with
  | EmptyString => false
  | String c s' => path_char c || has_path_char s'
  end.

Section Flows.

(** The remote service: [None] when the call is rejected or fails in
    transport, [Some d] when it succeeds, [d] being the [objectTypeId]
    of the response data ([""] when absent). *)
Variable http : request -> option string.

(** lodash's [get(meta, path, default)] when the path string needs
    lodash's path parser (the identifier holds '.', '[' or ']', or the
    whole path is itself a key of [meta]); lodash itself is not embedded. *)
Variable lodash_get_parsed : gmap string entry -> string -> string.

Definition call (r : request) : M string :=
  fun tr => ((tr ++ [EReq r])%list, http r).

(** [get(meta, `${x}.objectTypeId`, x)]: for an identifier without path
    syntax the path is the two keys [x] and [objectTypeId]. *)
Definition resolve (meta : gmap string entry) (x : string) : string :=
  if negb (has_path_char x) && negb (found (meta !! (x ++ ".objectTypeId"))) then
    match meta !! x with
    | Some e => match e_objectTypeId e with Some t => t | None => x end
    | None => x
    end
  else lodash_get_parsed meta x.

(** *** create (cli.ts lines 29-49 and 74-118) *)

Definition createSchema (objectSchema : local_schema) : M (option string) :=
  catchM (do d <- call (PostSchema (ls_name objectSchema)); retM (Some d))
         (emit (ELog ("Failed to Create Schema " ++ ls_name objectSchema)) >>> retM None).

Definition createAssociation (a : association) : M unit :=
  catchM (call (PostAssociation (a_fromObjectTypeId a) (a_toObjectTypeId a) (a_name a)) >>> retM tt)
         (emit (ELog ("Failed to Create Association " ++ a_name a))).

(** [pick(objectSchema, "associations", [])] mapped to requests. *)
Definition isolate_associations (objectType : string) (s : local_schema) : list association :=
  map (fun t => {| a_toObjectTypeId := t; a_fromObjectTypeId := objectType;
                   a_name := objectType ++ "_to_" ++ t |})
      (match ls_associations s with Some l => l | None => [] end).

(** [if (objectTypeId)] on the value [createSchema] returns. *)
Definition created_id (r : option string) : option string :=
  match r with
  | Some d => if String.eqb d "" then None else Some d
  | None => None
  end.

Definition created_entry (id : string) : entry :=
  {| e_objectTypeId := Some id; e_name := None; e_properties := None |}.

Fixpoint create_loop (meta : gmap string entry) (files : list local_file)
    (allAssociations : list association) : M (gmap string entry * list association) :=
  match files with
  | [] => retM (meta, allAssociations)
  | f :: fs =>
      let objectType := lf_objectType f in
      let allAssociations' := (allAssociations ++ isolate_associations objectType (lf_schema f))%list in
      do objectTypeId <- createSchema (lf_schema f);
      match created_id objectTypeId with
      | Some id =>
          emit (ELog ("Created " ++ objectType)) >>>
          create_loop (<[objectType := created_entry id]> meta) fs allAssociations'
      | None => create_loop meta fs allAssociations'
      end
  end.

Definition association_loop (meta : gmap string entry) (l : list association) : M unit :=
  for_each (fun a =>
    createAssociation {| a_name := a_name a;
                         a_fromObjectTypeId := resolve meta (a_fromObjectTypeId a);
                         a_toObjectTypeId := resolve meta (a_toObjectTypeId a) |}) l.

Definition createSchemas (meta : gmap string entry) (files : list local_file) : M unit :=
  do r <- create_loop meta files [];
  association_loop (fst r) (snd r).

(** *** delete (cli.ts lines 51-66 and 120-131) *)

Definition deleteSchema (objectTypeId : string) : M bool :=
  catchM (catchM (call (DeleteSchema objectTypeId)) (emit ELogError >>> throwM) >>>
          catchM (call (PurgeSchema objectTypeId)) (emit ELogError >>> throwM) >>>
          retM true)
         (emit (ELog ("Failed to Delete Schema " ++ objectTypeId)) >>> retM false).

(** [meta[objectType].objectTypeId] throws when [meta[objectType]] is
    [undefined]. *)
Definition delete_one (meta : gmap string entry) (f : local_file) : M unit :=
  match index_get meta (lf_objectType f) with
  | None => throwM
  | Some e =>
      do success <- deleteSchema (str_opt (e_objectTypeId e));
      if success then emit (ELog ("Deleted " ++ lf_objectType f)) else retM tt
  end.

Definition deleteSchemas (meta : gmap string entry) (files : list local_file) : M unit :=
  for_each (delete_one meta) files.

(** *** update (cli.ts lines 148-223) *)

Definition run_deletes (oid sname : string) (ps : list obj) : M unit :=
  for_each (fun p =>
    emit (ELog ("Deleting property " ++ js_str (prop_name p) ++ " on " ++ sname)) >>>
    call (DeleteProperty oid (js_str (prop_name p))) >>> retM tt) ps.

Definition run_creates (oid sname : string) (ps : list obj) : M unit :=
  for_each (fun p =>
    emit (ELog ("Creating property " ++ js_str (prop_name p) ++ " on " ++ sname)) >>>
    call (PostProperty oid p) >>> retM tt) ps.

(** [.catch((e) => console.log(e))] on each PATCH. *)
Definition run_updates (oid sname : string) (ps : list obj) : M unit :=
  for_each (fun p =>
    emit (ELog ("Updating property " ++ js_str (prop_name p) ++ " on " ++ sname)) >>>
    catchM (call (PatchProperty oid (js_str (prop_name p)) p) >>> retM tt) (emit ELogError)) ps.

(** [pick] of an undefined property list yields [undefined], and the
    first [filter]/[find] on it throws before any request. *)
Definition updateSchema (updatedProperties : option (list obj)) (currentSchema : entry) : M unit :=
  match updatedProperties, e_properties currentSchema with
  | Some u, Some c =>
      match reconcile u c with
      | None => throwM
      | Some (dl, cl, ul) =>
          let oid := str_opt (e_objectTypeId currentSchema) in
          let sname := str_opt (e_name currentSchema) in
          run_deletes oid sname dl >>> run_creates oid sname cl >>> run_updates oid sname ul
      end
  | _, _ => throwM
  end.

(** Removing the [properties] key of the shared index record, as
    [pick(currentSchema, "properties")] does. *)
Definition picked (e : entry) : entry :=
  {| e_objectTypeId := e_objectTypeId e; e_name := e_name e; e_properties := None |}.

Fixpoint updateSchemas (meta : gmap string entry) (files : list local_file) : M unit :=
  match files with
  | [] => retM tt
  | f :: fs =>
      let objectType := lf_objectType f in
      match meta !! objectType with
      | Some e =>
          updateSchema (ls_properties (lf_schema f)) e >>>
          updateSchemas (<[objectType := picked e]> meta) fs
      | None =>
          match proto_member objectType with
          | Some e =>
              (* [pick] deletes [properties] of the inherited member, which it
                 does not have: the index is unchanged *)
              updateSchema (ls_properties (lf_schema f)) e >>> updateSchemas meta fs
          | None =>
              emit (ELog ("Object Type " ++ objectType ++ " does not exist to be updated.")) >>>
              updateSchemas meta fs
          end
      end
  end.

End Flows.

(* ------------------------------------------------------------------ *)
(** ** Definitions following the spec's words (compared with the code) *)

(** §4.3 toDelete: absent by name from [updated] and not starting with a
    reserved prefix. *)
Definition reserved_prefix (name : option jval) : bool :=
  match name with
  | Some (JStr s) => String.prefix "hs_" s || String.prefix "hubspot_" s
  | _ => false
  end.

Definition spec_toDelete (updatedProperties currentProperties : list obj) : list obj :=
  List.filter (fun p => negb (found (find_by_name updatedProperties (prop_name p))) &&
                        negb (reserved_prefix (prop_name p)))
    currentProperties.

(** The fields an option record is compared on. *)
Definition opt_field (x : jval) (k : string) : option jval :=
  match x with JObj _ fs => obj_get fs k | _ => None end.

Definition option_pair (x : jval) : option jval * option jval :=
  (opt_field x "label", opt_field x "value").

Definition same_pair (x y : jval) : bool :=
  strict_eq (opt_field x "label") (opt_field y "label") &&
  strict_eq (opt_field x "value") (opt_field y "value").

(** "the two sequences contain exactly the same set of {label, value}
    pairs, irrespective of order". *)
Definition same_pairs (a b : list jval) : bool :=
  forallb (fun x => existsb (same_pair x) b) a && forallb (fun y => existsb (same_pair y) a) b.

(** §4.3 per-field rule. *)
Definition field_differs (uv ev : option jval) : bool :=
  match uv with
  | Some (JArr _ a) =>
      match ev with
      | Some (JArr _ b) => negb (same_pairs a b)
      | _ => true
      end
  | _ => negb (strict_eq uv ev)
  end.

Definition spec_toUpdate (updatedProperties currentProperties : list obj) : list obj :=
  List.filter (fun u =>
    match find_by_name currentProperties (prop_name u) with
    | None => false
    | Some e => existsb (fun k => field_differs (obj_get u k) (obj_get e k)) (obj_keys u)
    end) updatedProperties.

(** Well-formedness predicates used in the statements. *)
Definition string_named (p : obj) : Prop := exists s, prop_name p = Some (JStr s).

Definition arrays_truthy (p : obj) : Prop :=
  forall k i xs, In (k, JArr i xs) p -> Forall (fun x => truthy (Some x) = true) xs.

Definition no_null (l : list jval) : Prop := Forall (fun x => x <> JNull) l.

Definition well_formed_options (l : list jval) : Prop :=
  Forall (fun x => truthy (Some x) = true) l.

(* ------------------------------------------------------------------ *)
(** ** objectTypeRegex (cli.ts line 10) *)

(** [RegExp("[/a-zA-Z0-9]+/([a-z_]+).json")], applied by [x.match(...)]
    to each path [glob] returns.  Paths are read as ASCII strings. *)

(** [[/a-zA-Z0-9]] *)
Definition is_path_class (c : ascii) : bool :=
  let n := nat_of_ascii c in
  Nat.eqb n 47 || (Nat.leb 48 n && Nat.leb n 57) || (Nat.leb 65 n && Nat.leb n 90)
  || (Nat.leb 97 n && Nat.leb n 122).

(** [[a-z_]] *)
Definition is_group_class (c : ascii) : bool :=
  let n := nat_of_ascii c in (Nat.leb 97 n && Nat.leb n 122) || Nat.eqb n 95.

(** The characters [.] does not match (the ASCII line terminators). *)
Definition line_terminator (c : ascii) : bool :=
  let n := nat_of_ascii c in Nat.eqb n 10 || Nat.eqb n 13.

(** The longest run of [p]-characters at the head of [l]: how far a
    greedy [+] can reach. *)
Fixpoint span (p : ascii -> bool) (l : list ascii) : nat :=
  match l with
  | [] => 0
  | c :: l' => if p c then S (span p l') else 0
  end.

(** Backtracking over a greedy [+]: the counts [n, n-1, ..., 1] in turn. *)
Fixpoint first_desc {A} (f : nat -> option A) (n : nat) : option A :=
  match n with
  | 0 => None
  | S k => match f (S k) with Some a => Some a | None => first_desc f k end
  end.

(** [.json] after the group: any character but a line terminator, then [json]. *)
Definition tail_ok (t : list ascii) : bool :=
  match t with
  | c :: j :: s :: o :: n :: _ =>
      negb (line_terminator c) && Ascii.eqb j "j" && Ascii.eqb s "s"
      && Ascii.eqb o "o" && Ascii.eqb n "n"
  | _ => false
  end.

(** The pattern anchored at the head of [l]: the lengths of the
    [[/a-zA-Z0-9]+] part and of the group, tried in backtracking order. *)
Definition match_at (l : list ascii) : option (nat * nat) :=
  first_desc (fun n1 =>
    match nth_error l n1 with
    | Some c =>
        if Ascii.eqb c "/" then
          let r := skipn (S n1) l in
          first_desc (fun n2 => if tail_ok (skipn n2 r) then Some (n1, n2) else None)
                     (span is_group_class r)
        else None
    | None => None
    end) (span is_path_class l).

(** The leftmost position where the pattern matches. *)
Fixpoint search (l : list ascii) : option (list ascii * nat * nat) :=
  match match_at l with
  | Some (n1, n2) => Some (l, n1, n2)
  | None => match l with [] => None | _ :: l' => search l' end
  end.

(** [x.match(objectTypeRegex)]: [None] is [null]; otherwise the matched
    text and the group, the [[filePath, objectType]] the loops destructure. *)
Definition objectType_match (x : string) : option (string * string) :=
  match search (list_ascii_of_string x) with
  | Some (l, n1, n2) =>
      Some (string_of_list_ascii (firstn (n1 + 1 + n2 + 5) l),
            string_of_list_ascii (firstn n2 (skipn (S n1) l)))
  | None => None
  end.

Definition all_chars (p : ascii -> bool) (s : string) : bool :=
  forallb p (list_ascii_of_string s).

(* ------------------------------------------------------------------ *)
(** ** pick (cli.ts lines 68-72) and getExistingSchemas (lines 24-27) *)

(** [delete obj[key]] *)
Definition js_delete (o : obj) (k : string) : obj :=
  List.filter (fun kv => negb (String.eqb k (fst kv))) o.

(** [pick(obj, key, def)]: the object after the [delete] and the value
    [result || def] (an omitted [def] is [undefined]). *)
Definition pick (o : obj) (k : string) (def : option jval) : obj * option jval :=
  let result := obj_get o k in
  (js_delete o k, if truthy result then result else def).

(** The key lodash's [keyBy(results, "name")] files a record under:
    [String(record.name)]. *)
Definition name_key (e : entry) : string :=
  match e_name e with Some n => n | None => "undefined" end.

(** [keyBy(data.results, "name")]: records in order, each assigned to its key. *)
Definition keyBy_name (results : list entry) : gmap string entry :=
  fold_left (fun m e => <[name_key e := e]> m) results ∅.

(* ------------------------------------------------------------------ *)
(** ** Definitions the statements use *)

Definition opt_match_b (aOption bOption : jval) : bool :=
  strict_eq (opt_field bOption "label") (opt_field aOption "label") &&
  strict_eq (opt_field bOption "value") (opt_field aOption "value").

Definition contains_all_b (a b : list jval) : bool :=
  forallb (fun x => truthy (List.find (opt_match_b x) b)) a.

(** The reserved-name test the code performs: a substring test. *)
Definition reserved_substring (name : option jval) : bool :=
  match name with
  | Some (JStr s) => str_includes s "hs_" || str_includes s "hubspot_"
  | _ => false
  end.

Definition opt (i : nat) (l v : string) : jval :=
  JObj i [("label", JStr l); ("value", JStr v)].

(** Scenario 2 of the spec: [status] with options [A, B] locally and
    [B, A] remotely. *)
Definition status_local : obj :=
  [("name", JStr "status"); ("type", JStr "enumeration");
   ("options", JArr 1 [opt 2 "A" "a"; opt 3 "B" "b"])].
Definition status_remote : obj :=
  [("name", JStr "status"); ("type", JStr "enumeration");
   ("options", JArr 4 [opt 5 "B" "b"; opt 6 "A" "a"])].

(** A current property after the update: the updated version of the
    same name from [toUpdateList], if any. *)
Definition replace_updated (toUpdateList : list obj) (p : obj) : obj :=
  match find_by_name toUpdateList (prop_name p) with Some p' => p' | None => p end.

(** The remote property list after the first run's results are applied:
    toDelete names removed, toUpdate properties replaced, toCreate
    properties appended as given. *)
Definition apply_reconciliation (C d c u : list obj) : list obj :=
  (map (replace_updated u)
       (List.filter (fun p => negb (found (find_by_name d (prop_name p)))) C) ++ c)%list.

(** Two updated properties sharing the name [a]. *)
Definition dup_a1 : obj := [("name", JStr "a"); ("type", JStr "string")].
Definition dup_a2 : obj := [("name", JStr "a"); ("type", JStr "number")].

(** The requests of a trace, in order. *)
Fixpoint requests (t : list event) : list request :=
  match t with
  | [] => []
  | EReq r :: t' => r :: requests t'
  | _ :: t' => requests t'
  end.

(** A computation only appends to the trace it is given. *)
Definition frames {A} (m : M A) : Prop :=
  forall tr, m tr = ((tr ++ fst (m []))%list, snd (m [])).

(** Spec §4.4: an identifier is replaced by the [objectTypeId] stored
    for it in the index, and passed through when it is not a key. *)
Definition spec_resolve (meta : gmap string entry) (x : string) : string :=
  match meta !! x with
  | Some e => match e_objectTypeId e with Some t => t | None => x end
  | None => x
  end.

(** An identifier lodash reads as the path [x; "objectTypeId"]. *)
Definition simple_id (meta : gmap string entry) (x : string) : Prop :=
  has_path_char x = false /\ meta !! (x ++ ".objectTypeId") = None.

(** Every association request the create flow accumulates. *)
Definition all_associations (files : list local_file) : list association :=
  flat_map (fun f => isolate_associations (lf_objectType f) (lf_schema f)) files.

(** Spec §4.4: the index after the creates, updated right after each
    successful one. *)
Definition index_after (http : request -> option string) (meta : gmap string entry) (files : list local_file) : gmap string entry :=
  fold_left (fun m f =>
    match created_id (http (PostSchema (ls_name (lf_schema f)))) with
    | Some id => <[lf_objectType f := created_entry id]> m
    | None => m
    end) files meta.

(** The property requests of the update flow for the remote record [e]. *)
Definition del_req (e : entry) (p : obj) : request :=
  DeleteProperty (str_opt (e_objectTypeId e)) (js_str (prop_name p)).
Definition post_req (e : entry) (p : obj) : request :=
  PostProperty (str_opt (e_objectTypeId e)) p.
Definition patch_req (e : entry) (p : obj) : request :=
  PatchProperty (str_opt (e_objectTypeId e)) (js_str (prop_name p)) p.

(** The events of one PATCH of the update flow: its log line, the
    request, and the error [console.log(e)] prints when it fails. *)
Definition patch_events (http : request -> option string) (e : entry) (p : obj) : list event :=
  ([ELog ("Updating property " ++ js_str (prop_name p) ++ " on " ++ str_opt (e_name e));
    EReq (patch_req e p)] ++
   (if found (http (patch_req e p)) then [] else [ELogError]))%list.

Definition schema_of (name : string) (assocs : option (list string))
    (props : option (list obj)) : local_schema :=
  {| ls_name := name; ls_associations := assocs; ls_properties := props |}.

Definition file_of (objectType : string) (s : local_schema) : local_file :=
  {| lf_objectType := objectType; lf_schema := s |}.

(** Spec Scenario 4: [company.json] declares an association to [deal]. *)
Definition company_file : local_file := file_of "company" (schema_of "company" (Some ["deal"]) None).
Definition deal_file : local_file := file_of "deal" (schema_of "deal" None None).

(** A remote that answers every request; new schemas get the id [id_<name>]. *)
Definition http_ok (r : request) : option string :=
  match r with
  | PostSchema n => Some ("id_" ++ n)
  | _ => Some "ok"
  end.

(** The same remote, refusing to create [company]. *)
Definition http_company_fails (r : request) : option string :=
  match r with
  | PostSchema n => if String.eqb n "company" then None else Some ("id_" ++ n)
  | _ => Some "ok"
  end.

(** The same remote, failing every property delete. *)
Definition http_no_delete (r : request) : option string :=
  match r with
  | DeleteProperty _ _ => None
  | PostSchema n => Some ("id_" ++ n)
  | _ => Some "ok"
  end.

(** Only used on identifiers with path characters, which the runs below avoid. *)
Definition lodash_plain (meta : gmap string entry) (x : string) : string := x.

Definition company_remote : entry :=
  {| e_objectTypeId := Some "2-1"; e_name := Some "company"; e_properties := Some [] |}.
Definition deal_remote : entry :=
  {| e_objectTypeId := Some "2-7"; e_name := Some "deal"; e_properties := Some [] |}.

Definition meta_company_exists : gmap string entry := <["company" := company_remote]> ∅.
Definition meta_deal : gmap string entry := <["deal" := deal_remote]> ∅.

(** Two remote types for the update flow: [a] holds a property [old] the
    local file dropped, [b] lacks the property [new] its file adds. *)
Definition remote_a : entry :=
  {| e_objectTypeId := Some "2-1"; e_name := Some "a"; e_properties := Some [[("name", JStr "old")]] |}.
Definition remote_b : entry :=
  {| e_objectTypeId := Some "2-2"; e_name := Some "b"; e_properties := Some [] |}.
Definition meta_ab : gmap string entry := <["a" := remote_a]> (<["b" := remote_b]> ∅).
Definition file_a : local_file := file_of "a" (schema_of "a" None (Some [])).
Definition file_b : local_file := file_of "b" (schema_of "b" None (Some [[("name", JStr "new")]])).


(** A file whose base name is a member of [Object.prototype]. *)
Definition constructor_file : local_file :=
  file_of "constructor" (schema_of "constructor" None (Some [[("name", JStr "x")]])).

(** With every remote call answered by [http]: the requests the delete
    flow sends for [f], the schema delete and, after a successful one,
    the purge. *)
Definition delete_requests (http : request -> option string) (meta : gmap string entry)
    (f : local_file) : list request :=
  match meta !! lf_objectType f with
  | Some e =>
      let oid := str_opt (e_objectTypeId e) in
      DeleteSchema oid :: (if found (http (DeleteSchema oid)) then [PurgeSchema oid] else [])
  | None => []
  end.

(** The association names among a list of requests. *)
Definition association_names (rs : list request) : list string :=
  flat_map (fun r => match r with PostAssociation _ _ n => [n] | _ => [] end) rs.

(** The [associations] array of a local schema file, [[]] when missing. *)
Definition declared_associations (s : local_schema) : list string :=
  match ls_associations s with Some l => l | None => [] end.

(* ------------------------------------------------------------------ *)
(** ** Basic facts *)

Lemma strict_eq_refl (v : option jval) : strict_eq v v = true.
Proof.
  destruct v as [[| b | z | s | i l | i l]|]; simpl;
    auto using Bool.eqb_reflx, Z.eqb_refl, String.eqb_refl, Nat.eqb_refl.
Qed.

Lemma strict_eq_sym (a b : option jval) : strict_eq a b = strict_eq b a.
Proof.
  destruct a as [[| x | x | x | x ? | x ?]|], b as [[| y | y | y | y ? | y ?]|]; simpl; auto.
  - destruct x, y; reflexivity.
  - apply Z.eqb_sym.
  - apply String.eqb_sym.
  - apply Nat.eqb_sym.
  - apply Nat.eqb_sym.
Qed.

Lemma strict_eq_trans (a b c : option jval) :
  strict_eq a b = true -> strict_eq b c = true -> strict_eq a c = true.
Proof.
  destruct a as [[| x | x | x | x ? | x ?]|], b as [[| y | y | y | y ? | y ?]|],
           c as [[| w | w | w | w ? | w ?]|]; simpl; try discriminate; auto.
  - intros H1 H2. apply Bool.eqb_prop in H1, H2. subst. apply Bool.eqb_reflx.
  - rewrite !Z.eqb_eq. congruence.
  - rewrite !String.eqb_eq. congruence.
  - rewrite !Nat.eqb_eq. congruence.
  - rewrite !Nat.eqb_eq. congruence.
Qed.

Lemma strict_eq_str (s t : string) :
  strict_eq (Some (JStr s)) (Some (JStr t)) = true -> s = t.
Proof. simpl. apply String.eqb_eq. Qed.

Lemma prefix_includes (s sub : string) :
  String.prefix sub s = true -> str_includes s sub = true.
Proof. intros H. destruct s; cbn [str_includes]; rewrite H; reflexivity. Qed.

Lemma filter_m_total {A} (p : A -> option bool) (q : A -> bool) (l : list A) :
  (forall x, In x l -> p x = Some (q x)) -> filter_m p l = Some (List.filter q l).
Proof.
  induction l as [|x l IH]; intros H; simpl; [reflexivity|].
  rewrite (H x (or_introl eq_refl)), IH by (intros y Hy; apply H; right; exact Hy).
  reflexivity.
Qed.

Lemma filter_m_defined {A} (p : A -> option bool) (l l' : list A) :
  filter_m p l = Some l' ->
  (forall x, In x l -> exists b, p x = Some b) /\
  l' = List.filter (fun x => match p x with Some true => true | _ => false end) l.
Proof.
  revert l'. induction l as [|x l IH]; intros l' H; simpl in *.
  - split; [tauto|]. congruence.
  - destruct (p x) as [b|] eqn:Hp; [|discriminate].
    destruct (filter_m p l) as [r|] eqn:Hr; [|discriminate].
    destruct (IH r eq_refl) as [H1 H2]. injection H as <-.
    split.
    + intros y [<-|Hy]; eauto.
    + subst r. destruct b; reflexivity.
Qed.

Lemma find_by_name_In (ps : list obj) (n : option jval) (p : obj) :
  find_by_name ps n = Some p -> In p ps /\ strict_eq (prop_name p) n = true.
Proof. unfold find_by_name. intros H. split; [eapply find_some in H; tauto|].
  apply find_some in H. tauto. Qed.

Lemma find_by_name_None (ps : list obj) (n : option jval) (p : obj) :
  find_by_name ps n = None -> In p ps -> strict_eq (prop_name p) n = false.
Proof. unfold find_by_name. intros H Hin. exact (find_none _ _ H p Hin). Qed.

Lemma find_by_name_self (ps : list obj) (p : obj) :
  In p ps -> found (find_by_name ps (prop_name p)) = true.
Proof.
  intros Hin. unfold found. destruct (find_by_name ps (prop_name p)) eqn:E; [reflexivity|].
  pose proof (find_by_name_None ps _ p E Hin) as F. rewrite strict_eq_refl in F. discriminate.
Qed.

(* ------------------------------------------------------------------ *)
(** ** The option-list comparison on lists without [null] *)

Lemma js_get_opt_field (x : jval) (k : string) :
  x <> JNull -> js_get x k = Some (opt_field x k).
Proof. destruct x; simpl; congruence. Qed.

Lemma option_match_b (x y : jval) :
  x <> JNull -> y <> JNull -> option_match x y = Some (opt_match_b x y).
Proof.
  intros Hx Hy. unfold option_match, opt_match_b.
  rewrite !js_get_opt_field by assumption.
  destruct (strict_eq _ _); reflexivity.
Qed.

Lemma find_list_total (l : list jval) (p : jval -> option bool) (q : jval -> bool) :
  (forall y, In y l -> p y = Some (q y)) -> find_list l p = Some (List.find q l).
Proof.
  induction l as [|y l IH]; intros H; simpl; [reflexivity|].
  rewrite (H y (or_introl eq_refl)). destruct (q y); [reflexivity|].
  apply IH. intros z Hz. apply H. right. exact Hz.
Qed.

Lemma every_list_total (l : list jval) (f : jval -> option bool) (q : jval -> bool) :
  (forall y, In y l -> f y = Some (q y)) -> every_list l f = Some (forallb q l).
Proof.
  induction l as [|y l IH]; intros H; simpl; [reflexivity|].
  rewrite (H y (or_introl eq_refl)). destruct (q y); simpl; [|reflexivity].
  apply IH. intros z Hz. apply H. right. exact Hz.
Qed.

Lemma shouldContainAll_total (i j : nat) (a b : list jval) :
  no_null a -> no_null b ->
  shouldContainAll (Some (JArr i a)) (Some (JArr j b)) = Some (contains_all_b a b).
Proof.
  intros Ha Hb. unfold shouldContainAll, contains_all_b.
  apply every_list_total. intros x Hx.
  rewrite (find_list_total b _ (opt_match_b x)); [reflexivity|].
  intros y Hy. apply option_match_b.
  - exact (proj1 (List.Forall_forall _ _) Ha x Hx).
  - exact (proj1 (List.Forall_forall _ _) Hb y Hy).
Qed.

Lemma validateOptions_total (i j : nat) (a b : list jval) :
  no_null a -> no_null b ->
  validateOptions (Some (JArr i a)) (Some (JArr j b)) =
  Some (contains_all_b a b && contains_all_b b a).
Proof.
  intros Ha Hb. unfold validateOptions.
  rewrite (shouldContainAll_total i j) by assumption.
  destruct (contains_all_b a b); simpl; [|reflexivity].
  apply (shouldContainAll_total j i); assumption.
Qed.

Lemma well_formed_no_null (l : list jval) : well_formed_options l -> no_null l.
Proof.
  unfold well_formed_options, no_null. intros H. eapply Forall_impl; [exact H|].
  intros x Hx ->. discriminate.
Qed.

(** With truthy elements, [find]'s result is truthy exactly when a match exists. *)
Lemma find_truthy (x : jval) (b : list jval) :
  well_formed_options b ->
  truthy (List.find (opt_match_b x) b) = existsb (same_pair x) b.
Proof.
  intros Hb. induction b as [|y b IH]; simpl; [reflexivity|].
  inversion Hb as [|? ? Hy Hb']; subst.
  unfold opt_match_b, same_pair.
  rewrite (strict_eq_sym (opt_field y "label")), (strict_eq_sym (opt_field y "value")).
  destruct (_ && _); simpl; [exact Hy|]. apply IH. exact Hb'.
Qed.

Lemma contains_all_b_truthy (a b : list jval) :
  well_formed_options b ->
  contains_all_b a b = forallb (fun x => existsb (same_pair x) b) a.
Proof.
  intros Hb. unfold contains_all_b. induction a as [|x a IH]; simpl; [reflexivity|].
  rewrite find_truthy by exact Hb. rewrite IH. reflexivity.
Qed.

Lemma delete_pred_string (U : list obj) (p : obj) :
  string_named p ->
  delete_pred U p = Some (negb (reserved_substring (prop_name p)) &&
                          negb (found (find_by_name U (prop_name p)))).
Proof.
  intros [s Hs]. unfold delete_pred. rewrite Hs. simpl.
  destruct (str_includes s "hs_"), (str_includes s "hubspot_"); reflexivity.
Qed.

(** Every step of the [reduce] answers "no change". *)
Lemma fold_m_all_false (f : bool -> string -> option bool) (ks : list string) :
  (forall k, In k ks -> f false k = Some false) -> fold_m f false ks = Some false.
Proof.
  induction ks as [|k ks IH]; intros H; simpl; [reflexivity|].
  rewrite (H k (or_introl eq_refl)). apply IH. intros k' Hk. apply H. right. exact Hk.
Qed.

Lemma same_pairs_perm (A B : list jval) :
  Permutation (map option_pair A) (map option_pair B) ->
  forallb (fun x => existsb (same_pair x) B) A = true.
Proof.
  intros HP. apply forallb_forall. intros x Hx. apply existsb_exists.
  assert (Hin : In (option_pair x) (map option_pair B)).
  { eapply Permutation_in; [exact HP|]. apply in_map. exact Hx. }
  apply in_map_iff in Hin as [y [Hy HyB]]. exists y. split; [exact HyB|].
  unfold option_pair in Hy. injection Hy as H1 H2.
  unfold same_pair. rewrite <- H1, <- H2, !strict_eq_refl. reflexivity.
Qed.

(* ------------------------------------------------------------------ *)
(** ** Claims about the reconciliation engine *)

(** C1 (counterexample): [months_active] is absent from [updated] and does
    not start with [hs_] or [hubspot_], so the spec puts it in toDelete;
    the code keeps it because its name contains [hs_]. *)
Lemma C1_months_active_not_deleted :
  toDelete [] [[("name", JStr "months_active")]] = Some [] /\
  spec_toDelete [] [[("name", JStr "months_active")]] = [[("name", JStr "months_active")]].
Proof. split; reflexivity. Qed.

(** C1 (amended): for current properties with string names, toDelete
    holds exactly the current properties whose name contains neither
    [hs_] nor [hubspot_] and is absent from [updated]; hence a name
    starting with a reserved prefix is never in toDelete. *)
Theorem C1_toDelete_exact (U C : list obj) :
  Forall string_named C ->
  toDelete U C =
    Some (List.filter (fun p => negb (reserved_substring (prop_name p)) &&
                                negb (found (find_by_name U (prop_name p)))) C) /\
  (forall l p, toDelete U C = Some l -> In p l -> reserved_prefix (prop_name p) = false).
Proof.
  intros HC.
  assert (E : toDelete U C =
    Some (List.filter (fun p => negb (reserved_substring (prop_name p)) &&
                                negb (found (find_by_name U (prop_name p)))) C)).
  { apply filter_m_total. intros p Hp. apply delete_pred_string.
    exact (proj1 (List.Forall_forall _ _) HC p Hp). }
  split; [exact E|].
  intros l p Hl Hp. rewrite E in Hl. injection Hl as <-.
  apply filter_In in Hp as [_ Hp]. apply andb_prop in Hp as [Hp _].
  unfold reserved_substring, reserved_prefix in *.
  destruct (prop_name p) as [[]|]; try reflexivity.
  destruct (String.prefix "hs_" s) eqn:E1.
  - rewrite (prefix_includes _ _ E1) in Hp. discriminate.
  - destruct (String.prefix "hubspot_" s) eqn:E2; [|reflexivity].
    rewrite (prefix_includes _ _ E2), orb_true_r in Hp. discriminate.
Qed.

Lemma C1_toDelete_exact_witness :
  Forall string_named [[("name", JStr "legacy_field")]; [("name", JStr "hs_owner")]] /\
  toDelete [] [[("name", JStr "legacy_field")]; [("name", JStr "hs_owner")]] =
    Some [[("name", JStr "legacy_field")]].
Proof.
  assert (H : Forall string_named [[("name", JStr "legacy_field")]; [("name", JStr "hs_owner")]]).
  { repeat constructor; eexists; reflexivity. }
  split; [exact H|].
  rewrite (proj1 (C1_toDelete_exact [] _ H)). reflexivity.
Defined.

(** C9: an updated property with an array field [options] matched to a
    current property lacking that field makes the computation of
    toUpdate throw, whatever the array holds. *)
Theorem C9_toUpdate_throws (n : string) (i : nat) (A : list jval) :
  toUpdate [[("name", JStr n); ("options", JArr i A)]] [[("name", JStr n)]] = None.
Proof.
  unfold toUpdate, update_pred, find_by_name, prop_name. simpl.
  rewrite String.eqb_refl. simpl. rewrite String.eqb_refl. simpl.
  unfold field_step; simpl. unfold validateOptions, shouldContainAll.
  destruct A; reflexivity.
Qed.

(** C3: on option lists the comparison is symmetric (lists without
    [null]), reflexive (well-formed lists), holds between lists with the
    same {label, value} pairs in another order, and a property whose
    options are only permuted remotely is not in toUpdate. *)
Theorem C3_validateOptions_laws :
  (forall i j (A B : list jval), no_null A -> no_null B ->
     validateOptions (Some (JArr i A)) (Some (JArr j B)) =
     validateOptions (Some (JArr j B)) (Some (JArr i A))) /\
  (forall i (A : list jval), well_formed_options A ->
     validateOptions (Some (JArr i A)) (Some (JArr i A)) = Some true) /\
  (forall i j (A B : list jval), well_formed_options A -> well_formed_options B ->
     Permutation (map option_pair A) (map option_pair B) ->
     validateOptions (Some (JArr i A)) (Some (JArr j B)) = Some true) /\
  (forall (C : list obj) (u e : obj) i j (A B : list jval),
     find_by_name C (prop_name u) = Some e ->
     obj_get u "options" = Some (JArr i A) -> obj_get e "options" = Some (JArr j B) ->
     well_formed_options A -> well_formed_options B ->
     Permutation (map option_pair A) (map option_pair B) ->
     (forall k, k <> "options" -> obj_get e k = obj_get u k) ->
     (forall k i' xs, k <> "options" -> obj_get u k <> Some (JArr i' xs)) ->
     toUpdate [u] C = Some []).
Proof.
  assert (Hperm : forall i j (A B : list jval), well_formed_options A -> well_formed_options B ->
     Permutation (map option_pair A) (map option_pair B) ->
     validateOptions (Some (JArr i A)) (Some (JArr j B)) = Some true).
  { intros i j A B HA HB HP.
    rewrite validateOptions_total by (apply well_formed_no_null; assumption).
    rewrite !contains_all_b_truthy by assumption.
    rewrite (same_pairs_perm A B HP), (same_pairs_perm B A (Permutation_sym HP)).
    reflexivity. }
  split; [|split; [|split]].
  - intros i j A B HA HB. rewrite !validateOptions_total by assumption.
    rewrite andb_comm. reflexivity.
  - intros i A HA. apply Hperm; auto.
  - exact Hperm.
  - intros C u e i j A B Hf Hu He HA HB HP Hother Hnarr.
    unfold toUpdate. simpl. unfold update_pred. rewrite Hf.
    rewrite fold_m_all_false; [reflexivity|].
    intros k _. unfold field_step.
    destruct (String.eqb_spec k "options") as [->|Hk].
    + rewrite Hu, He, (Hperm i j A B HA HB HP). reflexivity.
    + rewrite (Hother k Hk).
      destruct (obj_get u k) as [[| | | | i' xs |]|] eqn:Ek;
        try (rewrite strict_eq_refl; reflexivity).
      exfalso. exact (Hnarr k i' xs Hk Ek).
Qed.

Lemma C3_validateOptions_laws_witness :
  toUpdate [status_local] [status_remote] = Some [].
Proof.
  apply (proj2 (proj2 (proj2 C3_validateOptions_laws)) [status_remote] status_local
           status_remote 1 4 [opt 2 "A" "a"; opt 3 "B" "b"] [opt 5 "B" "b"; opt 6 "A" "a"]).
  - reflexivity.
  - reflexivity.
  - reflexivity.
  - repeat constructor.
  - repeat constructor.
  - simpl. apply perm_swap.
  - intros k Hk. unfold status_local, status_remote. simpl.
    destruct (String.eqb k "name"); [reflexivity|].
    destruct (String.eqb k "type"); [reflexivity|].
    destruct (String.eqb_spec k "options"); [contradiction|reflexivity].
  - intros k i' xs Hk. unfold status_local. simpl.
    destruct (String.eqb k "name"); [discriminate|].
    destruct (String.eqb k "type"); [discriminate|].
    destruct (String.eqb_spec k "options"); [contradiction|discriminate].
Defined.

Lemma obj_get_In (o : obj) (k : string) (v : jval) :
  obj_get o k = Some v -> In (k, v) o.
Proof.
  induction o as [|[k' v'] o IH]; simpl; [discriminate|].
  destruct (String.eqb_spec k k') as [->|_].
  - intros [= ->]. left. reflexivity.
  - intros H. right. apply IH. exact H.
Qed.

Lemma shouldContainAll_non_array (i : nat) (a : list jval) (ev : option jval) :
  (forall j b, ev <> Some (JArr j b)) -> validateOptions (Some (JArr i a)) ev = None.
Proof.
  intros Hev. unfold validateOptions, shouldContainAll.
  destruct ev as [[| | | | j b |]|]; try (exfalso; exact (Hev j b eq_refl));
    destruct a; reflexivity.
Qed.

Lemma field_step_spec (u e : obj) (k : string) (r : bool) :
  arrays_truthy u -> arrays_truthy e ->
  field_step u e false k = Some r -> r = field_differs (obj_get u k) (obj_get e k).
Proof.
  intros Hu He. unfold field_step, field_differs.
  destruct (obj_get u k) as [[| | | | i a |]|] eqn:Eu; try (intros [= <-]; reflexivity).
  assert (Ha : well_formed_options a) by exact (Hu k i a (obj_get_In _ _ _ Eu)).
  destruct (obj_get e k) as [[| | | | j b |]|] eqn:Ee;
    try (rewrite shouldContainAll_non_array by discriminate; discriminate).
  assert (Hb : well_formed_options b) by exact (He k j b (obj_get_In _ _ _ Ee)).
  rewrite validateOptions_total by (apply well_formed_no_null; assumption).
  rewrite !contains_all_b_truthy by assumption.
  intros [= <-]. reflexivity.
Qed.

Lemma fold_m_field_step (u e : obj) (ks : list string) (acc b : bool) :
  arrays_truthy u -> arrays_truthy e ->
  fold_m (field_step u e) acc ks = Some b ->
  b = acc || existsb (fun k => field_differs (obj_get u k) (obj_get e k)) ks.
Proof.
  intros Hu He. revert acc. induction ks as [|k ks IH]; intros acc H; simpl in *.
  - rewrite orb_false_r. congruence.
  - destruct acc.
    + simpl in H. apply IH in H. exact H.
    + destruct (field_step u e false k) as [r|] eqn:Es; [|discriminate].
      apply field_step_spec in Es; [|assumption|assumption]. subst r.
      apply IH in H. exact H.
Qed.

(** C2 (failing input): an updated property with options matched to a
    current property without [options]: the spec counts the field as
    changed, the code throws while computing toUpdate. *)
Lemma C2_missing_field_throws :
  toUpdate [[("name", JStr "p"); ("options", JArr 1 [opt 2 "A" "a"])]] [[("name", JStr "p")]] = None /\
  spec_toUpdate [[("name", JStr "p"); ("options", JArr 1 [opt 2 "A" "a"])]] [[("name", JStr "p")]] =
    [[("name", JStr "p"); ("options", JArr 1 [opt 2 "A" "a"])]].
Proof. split; reflexivity. Qed.

(** C2, where the code does not throw: whenever the computation of toUpdate completes, on
    properties whose array fields hold truthy elements (such as option
    records), it yields exactly the updated properties matched by name in
    current with at least one field differing under the §4.3 rule. *)
Theorem C2_toUpdate_exact (U C l : list obj) :
  Forall arrays_truthy U -> Forall arrays_truthy C ->
  toUpdate U C = Some l -> l = spec_toUpdate U C.
Proof.
  intros HU HC H. apply filter_m_defined in H as [Hdef ->].
  unfold spec_toUpdate. apply filter_ext_in. intros u Hu.
  destruct (Hdef u Hu) as [b Hb]. rewrite Hb.
  unfold update_pred in Hb.
  destruct (find_by_name C (prop_name u)) as [e|] eqn:Ef.
  - apply find_by_name_In in Ef as [HeC _].
    apply fold_m_field_step in Hb;
      [| exact (proj1 (List.Forall_forall _ _) HU u Hu)
       | exact (proj1 (List.Forall_forall _ _) HC e HeC)].
    simpl in Hb. subst b. destruct (existsb _ _); reflexivity.
  - injection Hb as <-. reflexivity.
Qed.

Lemma C2_toUpdate_exact_witness :
  toUpdate [status_local] [status_remote] = Some [] /\
  [] = spec_toUpdate [status_local] [status_remote].
Proof.
  assert (E : toUpdate [status_local] [status_remote] = Some []) by reflexivity.
  split; [exact E|].
  apply (C2_toUpdate_exact [status_local] [status_remote] []); [| |exact E].
  - repeat constructor. intros k i xs H. simpl in H.
    destruct H as [H|[H|[H|[]]]]; inversion H; subst; repeat constructor.
  - repeat constructor. intros k i xs H. simpl in H.
    destruct H as [H|[H|[H|[]]]]; inversion H; subst; repeat constructor.
Defined.

(* ------------------------------------------------------------------ *)
(** ** Applying a reconciliation to the remote property list *)

Lemma strict_eq_congr_l (a b c : option jval) :
  strict_eq a b = true -> strict_eq a c = strict_eq b c.
Proof.
  intros Hab. destruct (strict_eq b c) eqn:Hbc.
  - exact (strict_eq_trans _ _ _ Hab Hbc).
  - destruct (strict_eq a c) eqn:Hac; [|reflexivity].
    rewrite strict_eq_sym in Hab. rewrite (strict_eq_trans _ _ _ Hab Hac) in Hbc.
    discriminate.
Qed.

Lemma find_by_name_congr (L : list obj) (n m : option jval) :
  strict_eq n m = true -> find_by_name L n = find_by_name L m.
Proof.
  intros Hnm. unfold find_by_name. induction L as [|x L IH]; simpl; [reflexivity|].
  rewrite (strict_eq_sym (prop_name x) n), (strict_eq_sym (prop_name x) m).
  rewrite (strict_eq_congr_l _ _ _ Hnm). destruct (strict_eq m _); [reflexivity|exact IH].
Qed.

Lemma found_of_In (L : list obj) (n : option jval) (x : obj) :
  In x L -> strict_eq (prop_name x) n = true -> found (find_by_name L n) = true.
Proof.
  intros Hx Hn. unfold found. destruct (find_by_name L n) eqn:E; [reflexivity|].
  rewrite (find_by_name_None L n x E Hx) in Hn. discriminate.
Qed.

Lemma find_by_name_map (g : obj -> obj) (L : list obj) (n : option jval) :
  (forall x, strict_eq (prop_name (g x)) (prop_name x) = true) ->
  find_by_name (map g L) n = option_map g (find_by_name L n).
Proof.
  intros Hg. unfold find_by_name. induction L as [|x L IH]; simpl; [reflexivity|].
  rewrite (strict_eq_congr_l _ _ _ (Hg x)). destruct (strict_eq (prop_name x) n); [reflexivity|].
  exact IH.
Qed.

Lemma find_by_name_filter (keep : obj -> bool) (L : list obj) (n : option jval) (q : obj) :
  find_by_name L n = Some q -> keep q = true ->
  find_by_name (List.filter keep L) n = Some q.
Proof.
  unfold find_by_name. induction L as [|x L IH]; simpl; [discriminate|].
  destruct (strict_eq (prop_name x) n) eqn:Ex.
  - intros [= <-] Hk. rewrite Hk. simpl. rewrite Ex. reflexivity.
  - intros H Hk. destruct (keep x); simpl; [rewrite Ex|]; apply IH; assumption.
Qed.

Lemma find_by_name_filter_None (keep : obj -> bool) (L : list obj) (n : option jval) :
  find_by_name L n = None -> find_by_name (List.filter keep L) n = None.
Proof.
  unfold find_by_name. induction L as [|x L IH]; simpl; [reflexivity|].
  destruct (strict_eq (prop_name x) n) eqn:Ex; [discriminate|].
  intros H. destruct (keep x); simpl; [rewrite Ex|]; apply IH; assumption.
Qed.

Lemma find_by_name_app_l (L1 L2 : list obj) (n : option jval) (q : obj) :
  find_by_name L1 n = Some q -> find_by_name (L1 ++ L2)%list n = Some q.
Proof.
  unfold find_by_name. induction L1 as [|x L1 IH]; simpl; [discriminate|].
  destruct (strict_eq (prop_name x) n); [tauto|exact IH].
Qed.

Lemma find_by_name_app_None (L1 L2 : list obj) (n : option jval) :
  find_by_name L1 n = None -> find_by_name (L1 ++ L2)%list n = find_by_name L2 n.
Proof.
  unfold find_by_name. induction L1 as [|x L1 IH]; simpl; [reflexivity|].
  destruct (strict_eq (prop_name x) n); [discriminate|exact IH].
Qed.

Lemma filter_m_all_false {A} (p : A -> option bool) (l : list A) :
  (forall x, In x l -> p x = Some false) -> filter_m p l = Some [].
Proof.
  induction l as [|x l IH]; intros H; simpl; [reflexivity|].
  rewrite (H x (or_introl eq_refl)), IH by (intros y Hy; apply H; right; exact Hy).
  reflexivity.
Qed.

Lemma filter_all_false {A} (f : A -> bool) (l : list A) :
  (forall x, In x l -> f x = false) -> List.filter f l = [].
Proof.
  induction l as [|x l IH]; intros H; simpl; [reflexivity|].
  rewrite (H x (or_introl eq_refl)). apply IH. intros y Hy. apply H. right. exact Hy.
Qed.

Lemma NoDup_map_same {A B} (f : A -> B) (l : list A) (x y : A) :
  NoDup (map f l) -> In x l -> In y l -> f x = f y -> x = y.
Proof.
  induction l as [|z l IH]; simpl; [tauto|].
  intros Hnd Hx Hy Hf. apply NoDup_cons in Hnd as [Hz Hnd].
  destruct Hx as [<-|Hx], Hy as [<-|Hy]; try reflexivity.
  - exfalso. apply Hz. rewrite Hf. apply list_elem_of_In. apply in_map. exact Hy.
  - exfalso. apply Hz. rewrite <- Hf. apply list_elem_of_In. apply in_map. exact Hx.
  - apply IH; assumption.
Qed.

Lemma delete_pred_true (U : list obj) (r : obj) :
  delete_pred U r = Some true -> found (find_by_name U (prop_name r)) = false.
Proof.
  unfold delete_pred.
  destruct (js_includes (prop_name r) "hs_") as [[]|]; try discriminate.
  destruct (js_includes (prop_name r) "hubspot_") as [[]|]; try discriminate.
  destruct (found _); simpl; congruence.
Qed.

Lemma validateOptions_refl (i : nat) (a : list jval) :
  well_formed_options a -> validateOptions (Some (JArr i a)) (Some (JArr i a)) = Some true.
Proof.
  intros Ha. rewrite validateOptions_total by (apply well_formed_no_null; exact Ha).
  rewrite contains_all_b_truthy by exact Ha.
  rewrite (same_pairs_perm a a (Permutation_refl _)). reflexivity.
Qed.

(** A property compared with itself shows no change. *)
Lemma fold_self (v : obj) :
  arrays_truthy v -> fold_m (field_step v v) false (obj_keys v) = Some false.
Proof.
  intros Hv. apply fold_m_all_false. intros k _. unfold field_step.
  destruct (obj_get v k) as [[| | | | i a |]|] eqn:E; try (rewrite strict_eq_refl; reflexivity).
  rewrite (validateOptions_refl i a (Hv k i a (obj_get_In _ _ _ E))). reflexivity.
Qed.

Lemma string_named_eq (v w : obj) :
  string_named v -> string_named w ->
  strict_eq (prop_name w) (prop_name v) = true -> prop_name w = prop_name v.
Proof.
  intros [s Hs] [t Ht]. rewrite Hs, Ht. intros H. apply strict_eq_str in H. congruence.
Qed.

(** C8 (counterexample): with two updated properties of the same name,
    both are created by the first run; the second run compares the
    second one with the first and lists it in toUpdate. *)
Lemma C8_duplicate_names_not_idempotent :
  reconcile [dup_a1; dup_a2] [] = Some ([], [dup_a1; dup_a2], []) /\
  reconcile [dup_a1; dup_a2] (apply_reconciliation [] [] [dup_a1; dup_a2] []) =
    Some ([], [], [dup_a2]).
Proof. split; reflexivity. Qed.

(** C8 (amended): when the updated properties have pairwise distinct
    string names and their array fields hold truthy elements, and the
    first reconciliation completes, reconciling again against the
    property list with its results applied yields three empty lists. *)
Theorem C8_reconcile_idempotent (U C d c u : list obj) :
  Forall string_named U -> NoDup (map prop_name U) -> Forall arrays_truthy U ->
  reconcile U C = Some (d, c, u) ->
  reconcile U (apply_reconciliation C d c u) = Some ([], [], []).
Proof.
  intros HUn HUnd HUa Hr. unfold reconcile in Hr.
  destruct (toDelete U C) as [d0|] eqn:Hd; [|discriminate].
  destruct (toUpdate U C) as [u0|] eqn:Hu; [|discriminate].
  injection Hr as Ed Ec Eu. subst d0 u0 c.
  apply filter_m_defined in Hd as [HdDef HdEq].
  apply filter_m_defined in Hu as [HuDef HuEq].
  assert (HUn' : forall v, In v U -> string_named v)
    by exact (proj1 (List.Forall_forall _ _) HUn).
  assert (HUa' : forall v, In v U -> arrays_truthy v)
    by exact (proj1 (List.Forall_forall _ _) HUa).
  assert (Hu_sub : forall p, In p u -> In p U).
  { intros p Hp. rewrite HuEq in Hp. apply filter_In in Hp. tauto. }
  assert (Hc_sub : forall p, In p (toCreate U C) -> In p U).
  { intros p Hp. apply filter_In in Hp. tauto. }
  (* a current property sharing its name with an updated one is never deleted *)
  assert (HA : forall q v, In q C -> In v U -> strict_eq (prop_name q) (prop_name v) = true ->
                           found (find_by_name d (prop_name q)) = false).
  { intros q v Hq Hv Hqv. unfold found.
    destruct (find_by_name d (prop_name q)) as [r|] eqn:Er; [|reflexivity].
    apply find_by_name_In in Er as [Hr Hrq].
    rewrite HdEq in Hr. apply filter_In in Hr as [_ Hr].
    destruct (delete_pred U r) as [[]|] eqn:Hdr; try discriminate.
    apply delete_pred_true in Hdr.
    rewrite (find_by_name_congr U (prop_name r) (prop_name v)) in Hdr
      by (eapply strict_eq_trans; eassumption).
    rewrite (find_by_name_self U v Hv) in Hdr. discriminate. }
  assert (Hrepl : forall x, strict_eq (prop_name (replace_updated u x)) (prop_name x) = true).
  { intros x. unfold replace_updated.
    destruct (find_by_name u (prop_name x)) eqn:E;
      [apply find_by_name_In in E; tauto | apply strict_eq_refl]. }
  assert (HdelU : forall p, In p U -> delete_pred U p = Some false).
  { intros p Hp. rewrite delete_pred_string by (apply HUn'; exact Hp).
    rewrite (find_by_name_self U p Hp), andb_false_r. reflexivity. }
  assert (HdelKept : forall q, In q C -> found (find_by_name d (prop_name q)) = false ->
                               delete_pred U q = Some false).
  { intros q Hq Hk. destruct (HdDef q Hq) as [[|] Hb]; [|exact Hb]. exfalso.
    assert (Hqd : In q d) by (rewrite HdEq; apply filter_In; rewrite Hb; tauto).
    rewrite (found_of_In d (prop_name q) q Hqd (strict_eq_refl _)) in Hk. discriminate. }
  (* the first match of an updated name in the new list *)
  assert (HfindC : forall v q, In v U -> find_by_name C (prop_name v) = Some q ->
     find_by_name (apply_reconciliation C d (toCreate U C) u) (prop_name v) =
       Some (replace_updated u q)).
  { intros v q Hv Eq. apply find_by_name_In in Eq as Hq. destruct Hq as [HqC Hqv].
    unfold apply_reconciliation. apply find_by_name_app_l.
    rewrite find_by_name_map by exact Hrepl.
    rewrite (find_by_name_filter _ C (prop_name v) q Eq); [reflexivity|].
    rewrite (HA q v HqC Hv Hqv). reflexivity. }
  assert (HfindNone : forall v, find_by_name C (prop_name v) = None ->
     find_by_name (apply_reconciliation C d (toCreate U C) u) (prop_name v) =
       find_by_name (toCreate U C) (prop_name v)).
  { intros v Eq. unfold apply_reconciliation. apply find_by_name_app_None.
    rewrite find_by_name_map by exact Hrepl.
    rewrite (find_by_name_filter_None _ C (prop_name v) Eq). reflexivity. }
  unfold reconcile, toDelete.
  rewrite filter_m_all_false.
  2:{ intros x Hx. unfold apply_reconciliation in Hx. apply in_app_or in Hx as [Hx|Hx].
      - apply in_map_iff in Hx as [q [<- Hq]]. apply filter_In in Hq as [HqC Hk].
        apply negb_true_iff in Hk. unfold replace_updated.
        destruct (find_by_name u (prop_name q)) as [p'|] eqn:E.
        + apply find_by_name_In in E as [Hp' _]. apply HdelU, Hu_sub, Hp'.
        + apply HdelKept; assumption.
      - apply HdelU, Hc_sub, Hx. }
  replace (toCreate U (apply_reconciliation C d (toCreate U C) u)) with (@nil obj).
  2:{ symmetry. unfold toCreate at 1. apply filter_all_false. intros v Hv.
      apply negb_false_iff.
      destruct (find_by_name C (prop_name v)) as [q|] eqn:Eq.
      - rewrite (HfindC v q Hv Eq). reflexivity.
      - rewrite (HfindNone v Eq).
        apply (found_of_In _ _ v); [|apply strict_eq_refl].
        apply filter_In. split; [exact Hv|]. rewrite Eq. reflexivity. }
  unfold toUpdate. rewrite filter_m_all_false; [reflexivity|].
  intros v Hv. unfold update_pred.
  destruct (find_by_name C (prop_name v)) as [q|] eqn:Eq.
  - rewrite (HfindC v q Hv Eq).
    apply find_by_name_In in Eq as Hq. destruct Hq as [HqC Hqv].
    unfold replace_updated. destruct (find_by_name u (prop_name q)) as [p'|] eqn:Ep.
    + apply find_by_name_In in Ep as [Hp' Hp'q].
      assert (Hpv : strict_eq (prop_name p') (prop_name v) = true)
        by (eapply strict_eq_trans; eassumption).
      assert (p' = v) as ->.
      { apply (NoDup_map_same prop_name U); [exact HUnd|apply Hu_sub; exact Hp'|exact Hv|].
        apply string_named_eq; [apply HUn'; exact Hv|apply HUn', Hu_sub; exact Hp'|exact Hpv]. }
      apply fold_self. apply HUa'. exact Hv.
    + destruct (HuDef v Hv) as [b Hb].
      assert (Hb' := Hb). unfold update_pred in Hb'. rewrite Eq in Hb'.
      destruct b; [|exact Hb']. exfalso.
      assert (Hvu : In v u) by (rewrite HuEq; apply filter_In; rewrite Hb; tauto).
      pose proof (found_of_In u (prop_name q) v Hvu) as F.
      rewrite strict_eq_sym, Ep in F. simpl in F. specialize (F Hqv). discriminate.
  - rewrite (HfindNone v Eq).
    destruct (find_by_name (toCreate U C) (prop_name v)) as [w|] eqn:Ew.
    + apply find_by_name_In in Ew as [Hw Hwv].
      assert (w = v) as ->.
      { apply (NoDup_map_same prop_name U); [exact HUnd|apply Hc_sub; exact Hw|exact Hv|].
        apply string_named_eq; [apply HUn'; exact Hv|apply HUn', Hc_sub; exact Hw|exact Hwv]. }
      apply fold_self. apply HUa'. exact Hv.
    + exfalso.
      assert (Hvc : In v (toCreate U C)) by (apply filter_In; rewrite Eq; tauto).
      pose proof (found_of_In _ _ v Hvc (strict_eq_refl _)) as F.
      rewrite Ew in F. discriminate.
Qed.

Lemma C8_reconcile_idempotent_witness :
  reconcile [status_local; dup_a1] [status_remote; [("name", JStr "legacy_field")]] =
    Some ([[("name", JStr "legacy_field")]], [dup_a1], []) /\
  reconcile [status_local; dup_a1]
    (apply_reconciliation [status_remote; [("name", JStr "legacy_field")]]
       [[("name", JStr "legacy_field")]] [dup_a1] []) = Some ([], [], []).
Proof.
  assert (E : reconcile [status_local; dup_a1] [status_remote; [("name", JStr "legacy_field")]] =
    Some ([[("name", JStr "legacy_field")]], [dup_a1], [])) by reflexivity.
  split; [exact E|].
  apply (C8_reconcile_idempotent _ _ _ _ _); [| | |exact E].
  - repeat constructor; eexists; reflexivity.
  - simpl. repeat constructor; simpl; set_solver.
  - repeat constructor; intros k i xs H; simpl in H;
      repeat (destruct H as [H|H]; [inversion H; subst; repeat constructor|]); contradiction.
Defined.

(* ------------------------------------------------------------------ *)
(** ** Traces of the flow monad *)

Lemma requests_app (t1 t2 : list event) :
  requests (t1 ++ t2)%list = (requests t1 ++ requests t2)%list.
Proof. induction t1 as [|[] t1 IH]; simpl; rewrite ?IH; reflexivity. Qed.

Lemma requests_prefix (t1 t2 : list event) :
  t1 `prefix_of` t2 -> requests t1 `prefix_of` requests t2.
Proof. intros [k ->]. rewrite requests_app. exists (requests k). reflexivity. Qed.

Lemma retM_frames {A} (x : A) : frames (retM x).
Proof. intros tr. unfold retM. simpl. rewrite app_nil_r. reflexivity. Qed.

Lemma throwM_frames {A} : frames (@throwM A).
Proof. intros tr. unfold throwM. simpl. rewrite app_nil_r. reflexivity. Qed.

Lemma emit_frames (e : event) : frames (emit e).
Proof. intros tr. reflexivity. Qed.

Lemma bindM_frames {A B} (m : M A) (k : A -> M B) :
  frames m -> (forall x, frames (k x)) -> frames (bindM m k).
Proof.
  intros Hm Hk tr. unfold bindM. rewrite (Hm tr).
  destruct (m []) as [t [x|]]; simpl; [|reflexivity].
  rewrite (Hk x (tr ++ t)%list), (Hk x t). simpl. rewrite <- List.app_assoc. reflexivity.
Qed.

Lemma catchM_frames {A} (m h : M A) :
  frames m -> frames h -> frames (catchM m h).
Proof.
  intros Hm Hh tr. unfold catchM. rewrite (Hm tr).
  destruct (m []) as [t [x|]]; simpl; [reflexivity|].
  rewrite (Hh (tr ++ t)%list), (Hh t). simpl. rewrite <- List.app_assoc. reflexivity.
Qed.

Lemma bindM_run {A B} (m : M A) (k : A -> M B) :
  (forall x, frames (k x)) ->
  bindM m k [] =
    match m [] with
    | (t, Some x) => ((t ++ fst (k x []))%list, snd (k x []))
    | (t, None) => (t, None)
    end.
Proof.
  intros Hk. unfold bindM. destruct (m []) as [t [x|]]; [|reflexivity].
  rewrite (Hk x t). reflexivity.
Qed.

Lemma for_each_frames {A} (body : A -> M unit) (l : list A) :
  (forall x, frames (body x)) -> frames (for_each body l).
Proof.
  intros Hb. induction l as [|x l IH]; simpl.
  - apply retM_frames.
  - apply bindM_frames; [apply Hb|intros _; exact IH].
Qed.

Lemma for_each_fails {A} (body : A -> M unit) (l : list A) :
  (forall x, frames (body x)) ->
  snd (for_each body l []) = None <-> exists x, In x l /\ snd (body x []) = None.
Proof.
  intros Hb. induction l as [|x l IH]; simpl.
  - split; [discriminate|]. intros [? [[] _]].
  - rewrite bindM_run by (intros _; apply for_each_frames; exact Hb).
    destruct (body x []) as [t [[]|]] eqn:Ex; simpl.
    + rewrite IH. split.
      * intros [y [Hy Hy']]. exists y. tauto.
      * intros [y [[<-|Hy] Hy']]; [rewrite Ex in Hy'; discriminate|]. exists y. tauto.
    + split; [intros _; exists x; rewrite Ex; tauto|reflexivity].
Qed.

Lemma for_each_trace_prefix {A} (body : A -> M unit) (l : list A) :
  (forall x, frames (body x)) ->
  fst (for_each body l []) `prefix_of` concat (map (fun x => fst (body x [])) l).
Proof.
  intros Hb. induction l as [|x l IH]; simpl; [reflexivity|].
  rewrite bindM_run by (intros _; apply for_each_frames; exact Hb).
  destruct (body x []) as [t [[]|]]; simpl.
  - apply prefix_app. exact IH.
  - apply prefix_app_r. reflexivity.
Qed.

Lemma for_each_trace_ok {A} (body : A -> M unit) (l : list A) :
  (forall x, frames (body x)) ->
  snd (for_each body l []) = Some tt ->
  fst (for_each body l []) = concat (map (fun x => fst (body x [])) l).
Proof.
  intros Hb. induction l as [|x l IH]; simpl; [reflexivity|].
  rewrite bindM_run by (intros _; apply for_each_frames; exact Hb).
  destruct (body x []) as [t [[]|]]; simpl; [|discriminate].
  intros H. rewrite (IH H). reflexivity.
Qed.


Lemma concat_map_single {A B} (f : A -> B) (l : list A) :
  concat (map (fun x => [f x]) l) = map f l.
Proof. induction l as [|x l IH]; simpl; [reflexivity|]. rewrite IH. reflexivity. Qed.

Lemma requests_concat (l : list (list event)) :
  requests (concat l) = concat (map requests l).
Proof. induction l as [|t l IH]; simpl; [reflexivity|]. rewrite requests_app, IH. reflexivity. Qed.

(* ------------------------------------------------------------------ *)
(** ** The command flows *)

Lemma prefix_app_mid (a b c d : list request) :
  a `prefix_of` b -> (c ++ a)%list `prefix_of` (c ++ b ++ d)%list.
Proof. intros [k ->]. exists (k ++ d)%list. rewrite <- !List.app_assoc. reflexivity. Qed.

Lemma prefix_app_right (a b d : list request) :
  a `prefix_of` b -> a `prefix_of` (b ++ d)%list.
Proof. intros [k ->]. exists (k ++ d)%list. rewrite <- !List.app_assoc. reflexivity. Qed.

Ltac solve_frames :=
  repeat first
    [ apply retM_frames | apply throwM_frames | apply emit_frames
    | apply bindM_frames | apply catchM_frames | apply for_each_frames
    | lazymatch goal with |- forall _, _ => intro end ].

Section FlowProofs.

Variable http : request -> option string.
Variable lodash_get_parsed : gmap string entry -> string -> string.

Lemma call_frames (r : request) : frames (call http r).
Proof. intros tr. reflexivity. Qed.

Ltac solve_frames' := repeat (solve_frames; try apply call_frames).

Lemma createSchema_frames (s : local_schema) : frames (createSchema http s).
Proof. unfold createSchema. solve_frames'. Qed.

Lemma createSchema_run (s : local_schema) :
  snd (createSchema http s []) = Some (http (PostSchema (ls_name s))) /\
  requests (fst (createSchema http s [])) = [PostSchema (ls_name s)].
Proof.
  unfold createSchema, catchM, bindM, call, retM, emit. simpl.
  destruct (http (PostSchema (ls_name s))); split; reflexivity.
Qed.

Lemma create_loop_frames (files : list local_file) :
  forall meta acc, frames (create_loop http meta files acc).
Proof.
  induction files as [|f fs IH]; intros meta acc; simpl; [apply retM_frames|].
  apply bindM_frames; [apply createSchema_frames|]. intros oid.
  destruct (created_id oid); [apply bindM_frames; [apply emit_frames|intros _; apply IH]|apply IH].
Qed.

Lemma create_loop_run (files : list local_file) :
  forall meta acc,
  snd (create_loop http meta files acc []) =
    Some (index_after http meta files, (acc ++ all_associations files)%list) /\
  requests (fst (create_loop http meta files acc [])) =
    map (fun f => PostSchema (ls_name (lf_schema f))) files.
Proof.
  induction files as [|f fs IH]; intros meta acc.
  - simpl. rewrite app_nil_r. split; reflexivity.
  - cbn [create_loop]. rewrite bindM_run.
    2:{ intros oid. destruct (created_id oid);
        [apply bindM_frames; [apply emit_frames|intros _; apply create_loop_frames]
        |apply create_loop_frames]. }
    destruct (createSchema_run (lf_schema f)) as [S1 S2].
    destruct (createSchema http (lf_schema f) []) as [t r] eqn:Ec. simpl in S1, S2. subst r.
    unfold index_after. cbn [fold_left all_associations flat_map]. fold (index_after).
    destruct (created_id (http (PostSchema (ls_name (lf_schema f))))) as [id|].
    + rewrite bindM_run by (intros _; apply create_loop_frames).
      destruct (IH (<[lf_objectType f := created_entry id]> meta)
                   (acc ++ isolate_associations (lf_objectType f) (lf_schema f))%list) as [I1 I2].
      simpl. rewrite I1. split.
      * rewrite <- List.app_assoc. reflexivity.
      * rewrite requests_app. simpl. rewrite I2, S2. reflexivity.
    + destruct (IH meta (acc ++ isolate_associations (lf_objectType f) (lf_schema f))%list)
        as [I1 I2].
      simpl. rewrite I1. split.
      * rewrite <- List.app_assoc. reflexivity.
      * rewrite requests_app. simpl. rewrite I2, S2. reflexivity.
Qed.

Lemma for_each_requests {A} (body : A -> M unit) (g : A -> request) (l : list A) :
  (forall x, frames (body x)) ->
  (forall x, requests (fst (body x [])) = [g x]) ->
  requests (fst (for_each body l [])) `prefix_of` map g l /\
  (snd (for_each body l []) = Some tt -> requests (fst (for_each body l [])) = map g l).
Proof.
  intros Hf Hg.
  assert (E : requests (concat (map (fun x => fst (body x [])) l)) = map g l).
  { rewrite requests_concat, map_map.
    transitivity (concat (map (fun x => [g x]) l));
      [f_equal; apply map_ext; exact Hg|apply concat_map_single]. }
  split.
  - rewrite <- E. apply requests_prefix, for_each_trace_prefix, Hf.
  - intros Hok. rewrite (for_each_trace_ok body l Hf Hok). exact E.
Qed.

Lemma createAssociation_frames (a : association) : frames (createAssociation http a).
Proof. unfold createAssociation. solve_frames'. Qed.

Lemma createAssociation_run (a : association) :
  snd (createAssociation http a []) = Some tt /\
  requests (fst (createAssociation http a [])) =
    [PostAssociation (a_fromObjectTypeId a) (a_toObjectTypeId a) (a_name a)].
Proof.
  unfold createAssociation, catchM, bindM, call, retM, emit. simpl.
  destruct (http _); split; reflexivity.
Qed.

Lemma association_loop_run (meta : gmap string entry) (l : list association) :
  snd (association_loop http lodash_get_parsed meta l []) = Some tt /\
  requests (fst (association_loop http lodash_get_parsed meta l [])) =
    map (fun a => PostAssociation (resolve lodash_get_parsed meta (a_fromObjectTypeId a))
                                  (resolve lodash_get_parsed meta (a_toObjectTypeId a))
                                  (a_name a)) l.
Proof.
  unfold association_loop.
  assert (Hf : forall a : association, frames (createAssociation http
      {| a_name := a_name a;
         a_fromObjectTypeId := resolve lodash_get_parsed meta (a_fromObjectTypeId a);
         a_toObjectTypeId := resolve lodash_get_parsed meta (a_toObjectTypeId a) |}))
    by (intros; apply createAssociation_frames).
  assert (Hok : snd (for_each (fun a => createAssociation http
      {| a_name := a_name a;
         a_fromObjectTypeId := resolve lodash_get_parsed meta (a_fromObjectTypeId a);
         a_toObjectTypeId := resolve lodash_get_parsed meta (a_toObjectTypeId a) |}) l []) = Some tt).
  { destruct (snd (for_each _ l [])) as [[]|] eqn:E; [reflexivity|].
    apply (for_each_fails _ l Hf) in E as [a [_ Ha]].
    rewrite (proj1 (createAssociation_run _)) in Ha. discriminate. }
  split; [exact Hok|].
  apply (for_each_requests _ _ l Hf); [|exact Hok].
  intros a. apply (createAssociation_run {| a_name := a_name a;
    a_fromObjectTypeId := resolve lodash_get_parsed meta (a_fromObjectTypeId a);
    a_toObjectTypeId := resolve lodash_get_parsed meta (a_toObjectTypeId a) |}).
Qed.

Lemma createSchemas_shape (meta : gmap string entry) (files : list local_file) :
  exists tc ta,
    createSchemas http lodash_get_parsed meta files [] = ((tc ++ ta)%list, Some tt) /\
    requests tc = map (fun f => PostSchema (ls_name (lf_schema f))) files /\
    requests ta =
      map (fun a => PostAssociation
                      (resolve lodash_get_parsed (index_after http meta files) (a_fromObjectTypeId a))
                      (resolve lodash_get_parsed (index_after http meta files) (a_toObjectTypeId a))
                      (a_name a))
          (all_associations files).
Proof.
  unfold createSchemas. rewrite bindM_run.
  2:{ intros r. unfold association_loop. apply for_each_frames.
      intros a. apply createAssociation_frames. }
  destruct (create_loop_run files meta []) as [C1 C2].
  destruct (create_loop http meta files [] []) as [tc r] eqn:E. simpl in C1, C2. subst r.
  destruct (association_loop_run (index_after http meta files) (all_associations files)) as [A1 A2].
  exists tc, (fst (association_loop http lodash_get_parsed (index_after http meta files)
                                    (all_associations files) [])).
  simpl. rewrite A1. split; [reflexivity|]. split; [exact C2|exact A2].
Qed.

Lemma resolve_simple (meta : gmap string entry) (x : string) :
  simple_id meta x -> resolve lodash_get_parsed meta x = spec_resolve meta x.
Proof.
  intros [H1 H2]. unfold resolve, spec_resolve. rewrite H1, H2. reflexivity.
Qed.

Lemma index_after_cons (meta : gmap string entry) (f : local_file) (fs : list local_file) :
  index_after http meta (f :: fs) =
    index_after http (match created_id (http (PostSchema (ls_name (lf_schema f)))) with
                 | Some id => <[lf_objectType f := created_entry id]> meta
                 | None => meta
                 end) fs.
Proof. reflexivity. Qed.

Lemma index_after_notin (files : list local_file) :
  forall meta ot, ~ In ot (map lf_objectType files) ->
  index_after http meta files !! ot = meta !! ot.
Proof.
  induction files as [|f fs IH]; intros meta ot Hn; [reflexivity|].
  simpl in Hn. rewrite index_after_cons.
  rewrite IH by tauto.
  destruct (created_id _); [|reflexivity].
  rewrite lookup_insert_ne; [reflexivity|]. intros E. apply Hn. left. exact E.
Qed.

Lemma index_after_step (files : list local_file) (f : local_file) :
  forall meta, NoDup (map lf_objectType files) -> In f files ->
  index_after http meta files !! lf_objectType f =
    match created_id (http (PostSchema (ls_name (lf_schema f)))) with
    | Some id => Some (created_entry id)
    | None => meta !! lf_objectType f
    end.
Proof.
  induction files as [|g fs IH]; intros meta Hnd Hin; [destruct Hin|].
  simpl in Hnd. apply NoDup_cons in Hnd as [Hg Hnd]. rewrite list_elem_of_In in Hg.
  rewrite index_after_cons.
  destruct Hin as [<-|Hin].
  - rewrite index_after_notin by exact Hg.
    destruct (created_id _); [apply lookup_insert_eq|reflexivity].
  - rewrite IH by assumption.
    assert (Hne : lf_objectType g <> lf_objectType f).
    { intros E. apply Hg. rewrite E. apply in_map, Hin. }
    destruct (created_id (http (PostSchema (ls_name (lf_schema f))))); [reflexivity|].
    destruct (created_id (http (PostSchema (ls_name (lf_schema g))))); [|reflexivity].
    apply lookup_insert_ne, Hne.
Qed.


Lemma for_each_calls {A} (body : A -> M unit) (g : A -> request) (l : list A) :
  (forall x, frames (body x)) ->
  (forall x, requests (fst (body x [])) = [g x]) ->
  (forall x, snd (body x []) = None <-> http (g x) = None) ->
  (snd (for_each body l []) = None <-> exists x, In x l /\ http (g x) = None) /\
  requests (fst (for_each body l [])) `prefix_of` map g l /\
  (snd (for_each body l []) = Some tt -> requests (fst (for_each body l [])) = map g l).
Proof.
  intros Hf Hg Hs. destruct (for_each_requests body g l Hf Hg) as [P Q].
  split; [|split; assumption].
  rewrite (for_each_fails body l Hf).
  split; intros [x [Hx H]]; exists x; (split; [exact Hx|apply Hs; exact H]).
Qed.

Ltac body_facts :=
  intros; unfold bindM, emit, call, retM, catchM; simpl; destruct (http _); simpl;
  first [reflexivity | split; intro Hx; first [reflexivity | inversion Hx]].

Lemma run_deletes_run (oid sname : string) (ps : list obj) :
  (snd (run_deletes http oid sname ps []) = None <->
     exists p, In p ps /\ http (DeleteProperty oid (js_str (prop_name p))) = None) /\
  requests (fst (run_deletes http oid sname ps [])) `prefix_of`
    map (fun p => DeleteProperty oid (js_str (prop_name p))) ps /\
  (snd (run_deletes http oid sname ps []) = Some tt ->
     requests (fst (run_deletes http oid sname ps [])) =
       map (fun p => DeleteProperty oid (js_str (prop_name p))) ps).
Proof.
  unfold run_deletes. apply for_each_calls;
    [intros; solve_frames'; apply call_frames|body_facts|body_facts].
Qed.

Lemma run_creates_run (oid sname : string) (ps : list obj) :
  (snd (run_creates http oid sname ps []) = None <->
     exists p, In p ps /\ http (PostProperty oid p) = None) /\
  requests (fst (run_creates http oid sname ps [])) `prefix_of`
    map (fun p => PostProperty oid p) ps /\
  (snd (run_creates http oid sname ps []) = Some tt ->
     requests (fst (run_creates http oid sname ps [])) = map (fun p => PostProperty oid p) ps).
Proof.
  unfold run_creates. apply for_each_calls;
    [intros; solve_frames'; apply call_frames|body_facts|body_facts].
Qed.

Lemma run_updates_run (oid sname : string) (ps : list obj) :
  snd (run_updates http oid sname ps []) = Some tt /\
  requests (fst (run_updates http oid sname ps [])) =
    map (fun p => PatchProperty oid (js_str (prop_name p)) p) ps.
Proof.
  unfold run_updates.
  match goal with |- context [for_each ?b ps []] => set (body := b) end.
  assert (Hf : forall p, frames (body p))
    by (intros; unfold body; solve_frames'; apply call_frames).
  assert (Hs : forall p, snd (body p []) = Some tt) by (unfold body; body_facts).
  assert (Hg : forall p, requests (fst (body p [])) =
                 [PatchProperty oid (js_str (prop_name p)) p]) by (unfold body; body_facts).
  assert (Hok : snd (for_each body ps []) = Some tt).
  { destruct (snd (for_each body ps [])) as [[]|] eqn:E; [reflexivity|].
    apply (for_each_fails body ps Hf) in E as [p [_ Hp]]. rewrite Hs in Hp. discriminate. }
  split; [exact Hok|]. apply (for_each_requests body _ ps Hf Hg), Hok.
Qed.

Lemma run_deletes_frames (oid sname : string) (ps : list obj) :
  frames (run_deletes http oid sname ps).
Proof. unfold run_deletes. apply for_each_frames. intros; solve_frames'; apply call_frames. Qed.

Lemma run_creates_frames (oid sname : string) (ps : list obj) :
  frames (run_creates http oid sname ps).
Proof. unfold run_creates. apply for_each_frames. intros; solve_frames'; apply call_frames. Qed.

Lemma run_updates_frames (oid sname : string) (ps : list obj) :
  frames (run_updates http oid sname ps).
Proof. unfold run_updates. apply for_each_frames. intros; solve_frames'; apply call_frames. Qed.

Lemma updateSchema_frames (U : option (list obj)) (e : entry) : frames (updateSchema http U e).
Proof.
  unfold updateSchema. destruct U as [u|]; [|apply throwM_frames].
  destruct (e_properties e) as [c|]; [|apply throwM_frames].
  destruct (reconcile u c) as [[[dl cl] ul]|]; [|apply throwM_frames].
  apply bindM_frames; [apply run_deletes_frames|intros _].
  apply bindM_frames; [apply run_creates_frames|intros _; apply run_updates_frames].
Qed.

Lemma updateSchema_run (U : list obj) (e : entry) (C dl cl ul : list obj) :
  e_properties e = Some C -> reconcile U C = Some (dl, cl, ul) ->
  (snd (updateSchema http (Some U) e []) = None <->
     exists r, In r (map (del_req e) dl ++ map (post_req e) cl)%list /\ http r = None) /\
  requests (fst (updateSchema http (Some U) e [])) `prefix_of`
    (map (del_req e) dl ++ map (post_req e) cl ++ map (patch_req e) ul)%list /\
  (snd (updateSchema http (Some U) e []) = Some tt ->
     requests (fst (updateSchema http (Some U) e [])) =
       (map (del_req e) dl ++ map (post_req e) cl ++ map (patch_req e) ul)%list).
Proof.
  intros HC HR. unfold updateSchema. rewrite HC, HR. cbv zeta.
  unfold del_req, post_req, patch_req.
  set (oid := str_opt (e_objectTypeId e)). set (sname := str_opt (e_name e)).
  destruct (run_deletes_run oid sname dl) as [D1 [D2 D3]].
  destruct (run_creates_run oid sname cl) as [P1 [P2 P3]].
  destruct (run_updates_run oid sname ul) as [Q1 Q2].
  rewrite bindM_run
    by (intros _; apply bindM_frames; [apply run_creates_frames|intros _; apply run_updates_frames]).
  destruct (run_deletes http oid sname dl []) as [t1 [[]|]] eqn:E1; simpl in D1, D2, D3.
  - rewrite bindM_run by (intros _; apply run_updates_frames).
    destruct (run_creates http oid sname cl []) as [t2 [[]|]] eqn:E2; simpl in P1, P2, P3.
    + simpl. rewrite Q1, !requests_app, (D3 eq_refl), (P3 eq_refl), Q2.
      split; [|split; [reflexivity|reflexivity]].
      split; [discriminate|]. intros [r [Hr Hn]]. apply in_app_iff in Hr as [Hr|Hr];
        apply in_map_iff in Hr as [p [<- Hp]].
      * assert (X : Some tt = None) by (apply D1; exists p; split; assumption). discriminate.
      * assert (X : Some tt = None) by (apply P1; exists p; split; assumption). discriminate.
    + simpl. rewrite requests_app, (D3 eq_refl).
      split; [|split; [apply prefix_app_mid, P2|discriminate]].
      split; [intros _|reflexivity].
      destruct (proj1 P1 eq_refl) as [p [Hp Hn]].
      exists (PostProperty oid p). split; [|exact Hn].
      apply in_app_iff. right. apply in_map. exact Hp.
  - simpl. split; [|split; [apply prefix_app_right, D2|discriminate]].
    split; [intros _|reflexivity].
    destruct (proj1 D1 eq_refl) as [p [Hp Hn]].
    exists (DeleteProperty oid (js_str (prop_name p))). split; [|exact Hn].
    apply in_app_iff. left. apply (in_map (fun p => DeleteProperty oid (js_str (prop_name p)))).
    exact Hp.
Qed.

Lemma updateSchemas_cons_some (meta : gmap string entry) (f : local_file) (fs : list local_file)
  (e : entry) :
  meta !! lf_objectType f = Some e ->
  updateSchemas http meta (f :: fs) =
    (updateSchema http (ls_properties (lf_schema f)) e >>>
     updateSchemas http (<[lf_objectType f := picked e]> meta) fs).
Proof. intros H. simpl. rewrite H. reflexivity. Qed.



Lemma for_each_first_failure {A} (body : A -> M unit) (g : A -> request) (l : list A) :
  (forall x, frames (body x)) ->
  (forall x, requests (fst (body x [])) = [g x]) ->
  snd (for_each body l []) = None ->
  exists pre x post, l = (pre ++ x :: post)%list /\
    Forall (fun y => snd (body y []) = Some tt) pre /\ snd (body x []) = None /\
    requests (fst (for_each body l [])) = (map g pre ++ [g x])%list.
Proof.
  intros Hf Hg. induction l as [|x l IH]; [discriminate|]. intros Hn.
  cbn [for_each] in *. rewrite bindM_run in * by (intros _; apply for_each_frames, Hf).
  specialize (Hg x) as Hx.
  destruct (body x []) as [t [[]|]] eqn:E; simpl in Hx, Hn |- *.
  - destruct (IH Hn) as (pre & y & post & -> & F & Hy & R).
    exists (x :: pre), y, post. split; [reflexivity|].
    split; [constructor; [rewrite E; reflexivity|exact F]|].
    split; [exact Hy|]. rewrite requests_app, R, Hx. reflexivity.
  - exists [], x, l. split; [reflexivity|]. split; [constructor|].
    rewrite E. split; [reflexivity|]. exact Hx.
Qed.

Lemma run_deletes_fail (oid sname : string) (ps : list obj) :
  snd (run_deletes http oid sname ps []) = None ->
  exists pre p post, ps = (pre ++ p :: post)%list /\
    Forall (fun q => http (DeleteProperty oid (js_str (prop_name q))) <> None) pre /\
    http (DeleteProperty oid (js_str (prop_name p))) = None /\
    requests (fst (run_deletes http oid sname ps [])) =
      (map (fun q => DeleteProperty oid (js_str (prop_name q))) pre ++
       [DeleteProperty oid (js_str (prop_name p))])%list.
Proof.
  unfold run_deletes.
  match goal with |- context [for_each ?b ps []] => set (body := b) end.
  assert (Hf : forall p, frames (body p))
    by (intros; unfold body; solve_frames'; apply call_frames).
  assert (Hg : forall p, requests (fst (body p [])) = [DeleteProperty oid (js_str (prop_name p))])
    by (unfold body; body_facts).
  assert (Hs : forall p, snd (body p []) = None <->
                 http (DeleteProperty oid (js_str (prop_name p))) = None)
    by (unfold body; body_facts).
  intros Hn. destruct (for_each_first_failure body _ ps Hf Hg Hn) as (pre & p & post & E & F & Hp & R).
  exists pre, p, post. split; [exact E|]. split.
  - refine (Forall_impl _ _ _ F _). intros q Hq Hn'. apply Hs in Hn'. rewrite Hq in Hn'. discriminate.
  - split; [apply Hs, Hp|exact R].
Qed.

Lemma run_creates_fail (oid sname : string) (ps : list obj) :
  snd (run_creates http oid sname ps []) = None ->
  exists pre p post, ps = (pre ++ p :: post)%list /\
    Forall (fun q => http (PostProperty oid q) <> None) pre /\
    http (PostProperty oid p) = None /\
    requests (fst (run_creates http oid sname ps [])) =
      (map (fun q => PostProperty oid q) pre ++ [PostProperty oid p])%list.
Proof.
  unfold run_creates.
  match goal with |- context [for_each ?b ps []] => set (body := b) end.
  assert (Hf : forall p, frames (body p))
    by (intros; unfold body; solve_frames'; apply call_frames).
  assert (Hg : forall p, requests (fst (body p [])) = [PostProperty oid p])
    by (unfold body; body_facts).
  assert (Hs : forall p, snd (body p []) = None <-> http (PostProperty oid p) = None)
    by (unfold body; body_facts).
  intros Hn. destruct (for_each_first_failure body _ ps Hf Hg Hn) as (pre & p & post & E & F & Hp & R).
  exists pre, p, post. split; [exact E|]. split.
  - refine (Forall_impl _ _ _ F _). intros q Hq Hn'. apply Hs in Hn'. rewrite Hq in Hn'. discriminate.
  - split; [apply Hs, Hp|exact R].
Qed.

Lemma run_updates_trace (oid sname : string) (ps : list obj) :
  fst (run_updates http oid sname ps []) =
    flat_map (fun p =>
      ([ELog ("Updating property " ++ js_str (prop_name p) ++ " on " ++ sname);
        EReq (PatchProperty oid (js_str (prop_name p)) p)] ++
       (if found (http (PatchProperty oid (js_str (prop_name p)) p)) then [] else [ELogError]))%list)
      ps.
Proof.
  unfold run_updates.
  match goal with |- context [for_each ?b ps []] => set (body := b) end.
  assert (Hf : forall p, frames (body p))
    by (intros; unfold body; solve_frames'; apply call_frames).
  induction ps as [|p ps IH]; [reflexivity|].
  cbn [for_each]. rewrite bindM_run by (intros _; apply for_each_frames, Hf).
  assert (B : body p [] =
    (([ELog ("Updating property " ++ js_str (prop_name p) ++ " on " ++ sname);
       EReq (PatchProperty oid (js_str (prop_name p)) p)] ++
      (if found (http (PatchProperty oid (js_str (prop_name p)) p)) then [] else [ELogError]))%list,
     Some tt)).
  { unfold body, bindM, emit, catchM, call, retM. simpl. destruct (http _); reflexivity. }
  rewrite B. cbn [fst flat_map]. rewrite IH. reflexivity.
Qed.

Lemma updateSchema_fail_point (U : list obj) (e : entry) (C dl cl ul : list obj) :
  e_properties e = Some C -> reconcile U C = Some (dl, cl, ul) ->
  snd (updateSchema http (Some U) e []) = None ->
  exists pre r post,
    (map (del_req e) dl ++ map (post_req e) cl)%list = (pre ++ r :: post)%list /\
    Forall (fun r' => http r' <> None) pre /\ http r = None /\
    requests (fst (updateSchema http (Some U) e [])) = (pre ++ [r])%list.
Proof.
  intros HC HR. destruct (updateSchema_run U e C dl cl ul HC HR) as [I _].
  unfold updateSchema. rewrite HC, HR. cbv zeta.
  unfold del_req, post_req.
  set (oid := str_opt (e_objectTypeId e)). set (sname := str_opt (e_name e)).
  destruct (run_deletes_run oid sname dl) as [D1 [_ D3]].
  destruct (run_updates_run oid sname ul) as [Q1 _].
  rewrite bindM_run
    by (intros _; apply bindM_frames; [apply run_creates_frames|intros _; apply run_updates_frames]).
  destruct (run_deletes http oid sname dl []) as [t1 [[]|]] eqn:E1; simpl in D1, D3.
  - rewrite bindM_run by (intros _; apply run_updates_frames).
    destruct (run_creates http oid sname cl []) as [t2 [[]|]] eqn:E2; simpl.
    + rewrite Q1. discriminate.
    + intros _.
      assert (F2 : snd (run_creates http oid sname cl []) = None) by (rewrite E2; reflexivity).
      destruct (run_creates_fail oid sname cl F2) as (pre & p & post & -> & F & Hp & R).
      rewrite E2 in R. simpl in R.
      exists (map (fun q => DeleteProperty oid (js_str (prop_name q))) dl ++
              map (fun q => PostProperty oid q) pre)%list, (PostProperty oid p),
             (map (fun q => PostProperty oid q) post).
      split; [rewrite map_app; simpl; rewrite <- app_assoc; reflexivity|].
      split; [|split; [exact Hp|]].
      * apply Forall_app. split.
        -- apply Forall_forall. intros r Hr Hn. apply list_elem_of_In in Hr.
           apply in_map_iff in Hr as [q [<- Hq]].
           assert (X : Some tt = None) by (apply D1; exists q; split; assumption). discriminate.
        -- apply Forall_map. exact F.
      * rewrite requests_app, (D3 eq_refl), R, app_assoc. reflexivity.
  - simpl. intros _.
    assert (F1 : snd (run_deletes http oid sname dl []) = None) by (rewrite E1; reflexivity).
    destruct (run_deletes_fail oid sname dl F1) as (pre & p & post & -> & F & Hp & R).
    rewrite E1 in R. simpl in R.
    exists (map (fun q => DeleteProperty oid (js_str (prop_name q))) pre),
           (DeleteProperty oid (js_str (prop_name p))),
           (map (fun q => DeleteProperty oid (js_str (prop_name q))) post ++
            map (fun q => PostProperty oid q) cl)%list.
    split; [rewrite map_app; simpl; rewrite <- app_assoc; reflexivity|].
    split; [apply Forall_map; exact F|]. split; [exact Hp|exact R].
Qed.

Lemma updateSchema_patch_trace (U : list obj) (e : entry) (C dl cl ul : list obj) :
  e_properties e = Some C -> reconcile U C = Some (dl, cl, ul) ->
  snd (updateSchema http (Some U) e []) = Some tt ->
  exists t, fst (updateSchema http (Some U) e []) = (t ++ flat_map (patch_events http e) ul)%list.
Proof.
  intros HC HR. unfold updateSchema. rewrite HC, HR. cbv zeta.
  set (oid := str_opt (e_objectTypeId e)). set (sname := str_opt (e_name e)).
  rewrite bindM_run
    by (intros _; apply bindM_frames; [apply run_creates_frames|intros _; apply run_updates_frames]).
  destruct (run_deletes http oid sname dl []) as [t1 [[]|]] eqn:E1; simpl; [|discriminate].
  rewrite bindM_run by (intros _; apply run_updates_frames).
  destruct (run_creates http oid sname cl []) as [t2 [[]|]] eqn:E2; simpl; [|discriminate].
  intros _. exists (t1 ++ t2)%list. rewrite <- app_assoc. f_equal. f_equal.
  rewrite run_updates_trace. reflexivity.
Qed.

(** C4: the create flow issues every schema creation before any
    association request, and each association is submitted with its
    identifiers replaced by the [objectTypeId] the index holds for them
    after all creates (the index gaining an entry right after each
    successful create) and passed through otherwise; in particular a type
    created in the batch is referred to by its newly assigned id.  The
    identifiers are taken to be plain keys for lodash's [get] (no [.],
    [[] or []], and no key [x.objectTypeId] in the index). *)
Theorem C4_associations_resolved_after_creates (meta : gmap string entry)
    (files : list local_file) :
  (forall a, In a (all_associations files) ->
     simple_id (index_after http meta files) (a_fromObjectTypeId a) /\
     simple_id (index_after http meta files) (a_toObjectTypeId a)) ->
  exists tc ta,
    createSchemas http lodash_get_parsed meta files [] = ((tc ++ ta)%list, Some tt) /\
    requests tc = map (fun f => PostSchema (ls_name (lf_schema f))) files /\
    requests ta =
      map (fun a => PostAssociation
                      (spec_resolve (index_after http meta files) (a_fromObjectTypeId a))
                      (spec_resolve (index_after http meta files) (a_toObjectTypeId a))
                      (a_name a))
          (all_associations files) /\
    (NoDup (map lf_objectType files) ->
     forall f id, In f files ->
       created_id (http (PostSchema (ls_name (lf_schema f)))) = Some id ->
       spec_resolve (index_after http meta files) (lf_objectType f) = id).
Proof.
  intros Hs. destruct (createSchemas_shape meta files) as (tc & ta & E & R1 & R2).
  exists tc, ta. split; [exact E|]. split; [exact R1|]. split.
  - rewrite R2. apply map_ext_in. intros a Ha. destruct (Hs a Ha) as [H1 H2].
    rewrite !resolve_simple by assumption. reflexivity.
  - intros Hnd f id Hf Hid. unfold spec_resolve.
    rewrite (index_after_step files f meta Hnd Hf), Hid. reflexivity.
Qed.

(** C10 (amended): when no two matched files share an identifier (and
    the identifiers carry no lodash path syntax), associations declared
    by a file whose creation fails are still submitted after all
    creates, and their [fromObjectTypeId]
    is the file's identifier resolved against the index as it was before
    the run: it passes through unchanged only when the identifier is not
    a key of that index, and is the existing remote id when it is. *)
Theorem C10_failed_create_association_sent (meta : gmap string entry)
    (files : list local_file) (f : local_file) :
  NoDup (map lf_objectType files) -> In f files ->
  created_id (http (PostSchema (ls_name (lf_schema f)))) = None ->
  (forall a, In a (all_associations files) ->
     simple_id (index_after http meta files) (a_fromObjectTypeId a) /\
     simple_id (index_after http meta files) (a_toObjectTypeId a)) ->
  forall a, In a (isolate_associations (lf_objectType f) (lf_schema f)) ->
    In (PostAssociation (spec_resolve meta (lf_objectType f))
                        (spec_resolve (index_after http meta files) (a_toObjectTypeId a))
                        (a_name a))
       (requests (fst (createSchemas http lodash_get_parsed meta files []))).
Proof.
  intros Hnd Hf Hfail Hs a Ha.
  destruct (createSchemas_shape meta files) as (tc & ta & E & R1 & R2).
  rewrite E. simpl. rewrite requests_app, R2. apply in_app_iff. right.
  assert (Hall : In a (all_associations files))
    by (unfold all_associations; apply in_flat_map; exists f; split; assumption).
  assert (Hfrom : a_fromObjectTypeId a = lf_objectType f).
  { unfold isolate_associations in Ha. apply in_map_iff in Ha as [t [<- _]]. reflexivity. }
  destruct (Hs a Hall) as [H1 H2].
  replace (spec_resolve meta (lf_objectType f))
    with (resolve lodash_get_parsed (index_after http meta files) (a_fromObjectTypeId a)).
  2:{ rewrite resolve_simple by exact H1. rewrite Hfrom. unfold spec_resolve.
      rewrite (index_after_step files f meta Hnd Hf), Hfail. reflexivity. }
  rewrite <- (resolve_simple _ _ H2).
  apply (in_map (fun a => PostAssociation
                  (resolve lodash_get_parsed (index_after http meta files) (a_fromObjectTypeId a))
                  (resolve lodash_get_parsed (index_after http meta files) (a_toObjectTypeId a))
                  (a_name a))).
  exact Hall.
Qed.



(** C5 (amended): a failing property delete or create call of the update
    flow is not caught.  The item fails exactly when one of its delete or
    create requests fails; then its requests stop at the first failing
    one, so its remaining property requests are skipped, and the whole
    update run ends there, every later file being skipped.  A failing
    PATCH is caught and logged: when no delete or create fails the item
    completes, every PATCH being followed in the trace by the logged
    error exactly when it fails. *)
Theorem C5_property_failure_aborts (meta : gmap string entry) (f : local_file)
    (fs : list local_file) (e : entry) (U C dl cl ul : list obj) (tr : list event) :
  meta !! lf_objectType f = Some e ->
  ls_properties (lf_schema f) = Some U ->
  e_properties e = Some C ->
  reconcile U C = Some (dl, cl, ul) ->
  (snd (updateSchema http (Some U) e []) = None <->
     exists r, In r (map (del_req e) dl ++ map (post_req e) cl)%list /\ http r = None) /\
  (snd (updateSchema http (Some U) e []) = None ->
     exists pre r post,
       (map (del_req e) dl ++ map (post_req e) cl)%list = (pre ++ r :: post)%list /\
       Forall (fun r' => http r' <> None) pre /\ http r = None /\
       requests (fst (updateSchema http (Some U) e [])) = (pre ++ [r])%list) /\
  ((forall r, In r (map (del_req e) dl ++ map (post_req e) cl)%list -> http r <> None) ->
     snd (updateSchema http (Some U) e []) = Some tt /\
     exists t, fst (updateSchema http (Some U) e []) = (t ++ flat_map (patch_events http e) ul)%list) /\
  (snd (updateSchema http (Some U) e []) = None ->
     updateSchemas http meta (f :: fs) tr =
       ((tr ++ fst (updateSchema http (Some U) e []))%list, None)).
Proof.
  intros Hm HU HC HR.
  destruct (updateSchema_run U e C dl cl ul HC HR) as [I _].
  split; [exact I|]. split; [apply (updateSchema_fail_point U e C dl cl ul HC HR)|]. split.
  - intros Hok.
    assert (S : snd (updateSchema http (Some U) e []) = Some tt).
    { destruct (snd (updateSchema http (Some U) e [])) as [[]|] eqn:E; [reflexivity|].
      destruct (proj1 I eq_refl) as [r [Hr Hn]]. exfalso. exact (Hok r Hr Hn). }
    split; [exact S|]. exact (updateSchema_patch_trace U e C dl cl ul HC HR S).
  - intros Hn. rewrite (updateSchemas_cons_some meta f fs e Hm), HU.
    unfold bindM at 1. rewrite (updateSchema_frames (Some U) e tr), Hn. reflexivity.
Qed.

End FlowProofs.

(* ------------------------------------------------------------------ *)
(** ** Concrete runs of the flows *)

Lemma C4_associations_resolved_after_creates_witness :
  (forall a, In a (all_associations [company_file; deal_file]) ->
     simple_id (index_after http_ok ∅ [company_file; deal_file]) (a_fromObjectTypeId a) /\
     simple_id (index_after http_ok ∅ [company_file; deal_file]) (a_toObjectTypeId a)) /\
  requests (fst (createSchemas http_ok lodash_plain ∅ [company_file; deal_file] [])) =
    [PostSchema "company"; PostSchema "deal"; PostAssociation "id_company" "id_deal" "company_to_deal"].
Proof.
  assert (H : forall a, In a (all_associations [company_file; deal_file]) ->
     simple_id (index_after http_ok ∅ [company_file; deal_file]) (a_fromObjectTypeId a) /\
     simple_id (index_after http_ok ∅ [company_file; deal_file]) (a_toObjectTypeId a)).
  { intros a Ha. simpl in Ha. destruct Ha as [<-|[]]. split; split; reflexivity. }
  split; [exact H|].
  destruct (C4_associations_resolved_after_creates http_ok lodash_plain ∅
              [company_file; deal_file] H) as (tc & ta & E & R1 & R2 & _).
  rewrite E. simpl. rewrite requests_app, R1, R2. reflexivity.
Defined.

(** C10: the creation of [company] fails, but [company] is already a key
    of the index; its association goes out from the existing remote id
    [2-1], not from the identifier [company]. *)
Lemma C10_failed_create_existing_key :
  requests (fst (createSchemas http_company_fails lodash_plain meta_company_exists
                   [company_file; deal_file] [])) =
    [PostSchema "company"; PostSchema "deal"; PostAssociation "2-1" "id_deal" "company_to_deal"] /\
  ~ In (PostAssociation "company" "id_deal" "company_to_deal")
       (requests (fst (createSchemas http_company_fails lodash_plain meta_company_exists
                         [company_file; deal_file] []))).
Proof.
  assert (E : requests (fst (createSchemas http_company_fails lodash_plain meta_company_exists
                   [company_file; deal_file] [])) =
    [PostSchema "company"; PostSchema "deal"; PostAssociation "2-1" "id_deal" "company_to_deal"])
    by (vm_compute; reflexivity).
  split; [exact E|]. rewrite E. simpl. intuition discriminate.
Qed.

Lemma C10_failed_create_association_sent_witness :
  In (PostAssociation "company" "id_deal" "company_to_deal")
     (requests (fst (createSchemas http_company_fails lodash_plain ∅ [company_file; deal_file] []))).
Proof.
  assert (Hnd : NoDup (map lf_objectType [company_file; deal_file])).
  { simpl. repeat constructor; simpl; set_solver. }
  assert (Hs : forall a, In a (all_associations [company_file; deal_file]) ->
     simple_id (index_after http_company_fails ∅ [company_file; deal_file]) (a_fromObjectTypeId a) /\
     simple_id (index_after http_company_fails ∅ [company_file; deal_file]) (a_toObjectTypeId a)).
  { intros a Ha. simpl in Ha. destruct Ha as [<-|[]]. split; split; reflexivity. }
  exact (C10_failed_create_association_sent http_company_fails lodash_plain ∅
           [company_file; deal_file] company_file Hnd (or_introl eq_refl) eq_refl Hs
           {| a_name := "company_to_deal"; a_fromObjectTypeId := "company";
              a_toObjectTypeId := "deal" |} (or_introl eq_refl)).
Defined.





(** C5: the delete of [old] on [a] fails; the run ends there and the
    create of [new] on [b], the next file, is never sent. *)
Lemma C5_delete_failure_stops_batch :
  requests (fst (updateSchemas http_no_delete meta_ab [file_a; file_b] [])) =
    [DeleteProperty "2-1" "old"] /\
  snd (updateSchemas http_no_delete meta_ab [file_a; file_b] []) = None.
Proof. split; vm_compute; reflexivity. Qed.

Lemma C5_property_failure_aborts_witness :
  updateSchemas http_no_delete meta_ab [file_a; file_b] [] =
    (fst (updateSchema http_no_delete (Some []) remote_a []), None).
Proof.
  destruct (C5_property_failure_aborts http_no_delete meta_ab file_a [file_b] remote_a
              [] [[("name", JStr "old")]] [[("name", JStr "old")]] [] [] []
              eq_refl eq_refl eq_refl eq_refl) as (I & _ & _ & P).
  apply P, I. exists (DeleteProperty "2-1" "old"). split; [left; reflexivity|reflexivity].
Defined.

(* ------------------------------------------------------------------ *)
(** ** The path pattern *)

Lemma list_ascii_of_string_app (a b : string) :
  list_ascii_of_string (a ++ b) = (list_ascii_of_string a ++ list_ascii_of_string b)%list.
Proof. induction a as [|c a IH]; simpl; [reflexivity|]. rewrite IH. reflexivity. Qed.

Lemma string_of_list_ascii_app (a b : list ascii) :
  string_of_list_ascii (a ++ b) = (string_of_list_ascii a ++ string_of_list_ascii b)%string.
Proof. induction a as [|c a IH]; simpl; [reflexivity|]. rewrite IH. reflexivity. Qed.

Lemma span_app (p : ascii -> bool) (a b : list ascii) :
  forallb p a = true -> span p (a ++ b) = length a + span p b.
Proof.
  induction a as [|c a IH]; simpl; [reflexivity|].
  intros H. apply andb_true_iff in H as [H1 H2]. rewrite H1, IH by exact H2. reflexivity.
Qed.

Lemma span_le (p : ascii -> bool) (l : list ascii) : span p l <= length l.
Proof. induction l as [|c l IH]; simpl; [lia|]. destruct (p c); simpl; lia. Qed.

Lemma span_firstn (p : ascii -> bool) (l : list ascii) (m : nat) :
  m <= span p l -> forallb p (firstn m l) = true.
Proof.
  revert m. induction l as [|c l IH]; intros m Hm; simpl in *.
  - destruct m; reflexivity.
  - destruct m as [|m]; [reflexivity|]. simpl.
    destruct (p c) eqn:Hc; [|lia]. simpl. apply IH. lia.
Qed.

Lemma first_desc_some {A} (f : nat -> option A) (k : nat) (a : A) :
  first_desc f k = Some a -> exists m, 1 <= m <= k /\ f m = Some a.
Proof.
  induction k as [|k IH]; simpl; [discriminate|].
  destruct (f (S k)) eqn:E.
  - intros [= <-]. exists (S k). split; [lia|exact E].
  - intros H. destruct (IH H) as [m [Hm Hf]]. exists m. split; [lia|exact Hf].
Qed.

Lemma first_desc_at {A} (f : nat -> option A) (k m : nat) (a : A) :
  1 <= m <= k -> (forall j, m < j <= k -> f j = None) -> f m = Some a ->
  first_desc f k = Some a.
Proof.
  induction k as [|k IH]; intros Hm Hj Hf; [lia|]. simpl.
  destruct (Nat.eq_dec m (S k)) as [->|Hne]; [rewrite Hf; reflexivity|].
  rewrite (Hj (S k)) by lia. apply IH; [lia| |exact Hf].
  intros j Hjk. apply Hj. lia.
Qed.

Lemma first_desc_reach {A} (f : nat -> option A) (k m : nat) :
  1 <= m <= k -> f m <> None -> first_desc f k <> None.
Proof.
  induction k as [|k IH]; intros Hm Hf; [lia|]. simpl.
  destruct (f (S k)) eqn:E; [discriminate|].
  destruct (Nat.eq_dec m (S k)) as [->|Hne]; [contradiction|].
  apply IH; [lia|exact Hf].
Qed.

Lemma search_suffix (l l' : list ascii) (n1 n2 : nat) :
  search l = Some (l', n1, n2) -> exists pre, l = (pre ++ l')%list /\ match_at l' = Some (n1, n2).
Proof.
  induction l as [|c l IH]; simpl.
  - discriminate.
  - destruct (match_at (c :: l)) as [[a b]|] eqn:E.
    + intros [= <- <- <-]. exists []. split; [reflexivity|exact E].
    + intros H. destruct (IH H) as [pre [-> Hm]]. exists (c :: pre). split; [reflexivity|exact Hm].
Qed.

Lemma search_skip (pre l : list ascii) :
  forallb (fun c => negb (is_path_class c)) pre = true -> search (pre ++ l) = search l.
Proof.
  induction pre as [|c pre IH]; simpl; [reflexivity|].
  intros H. apply andb_true_iff in H as [H1 H2]. apply negb_true_iff in H1.
  unfold match_at at 1. simpl. rewrite H1. simpl. apply IH, H2.
Qed.

Lemma search_reach (pre l : list ascii) :
  match_at l <> None -> search (pre ++ l) <> None.
Proof.
  intros H. induction pre as [|c pre IH]; simpl.
  - destruct (match_at l) as [[n1 n2]|] eqn:E; [|contradiction].
    destruct l as [|x l']; [simpl in E; discriminate|]. cbn [search]. rewrite E. discriminate.
  - destruct (match_at (c :: pre ++ l)) as [[n1 n2]|]; [discriminate|exact IH].
Qed.

Lemma match_at_some (l : list ascii) (n1 n2 : nat) :
  match_at l = Some (n1, n2) ->
  1 <= n1 <= span is_path_class l /\ nth_error l n1 = Some "/"%char /\
  1 <= n2 <= span is_group_class (skipn (S n1) l) /\
  tail_ok (skipn n2 (skipn (S n1) l)) = true.
Proof.
  unfold match_at. intros H. apply first_desc_some in H as [m [Hm Hf]].
  destruct (nth_error l m) as [c|] eqn:Hn; [|discriminate].
  destruct (Ascii.eqb c "/") eqn:Hc; [|discriminate].
  apply Ascii.eqb_eq in Hc. subst c.
  apply first_desc_some in Hf as [m2 [Hm2 Hg]].
  destruct (tail_ok _) eqn:Ht; [|discriminate]. injection Hg as <- <-.
  repeat split; try lia; assumption.
Qed.

Lemma nth_error_split_at (l : list ascii) (n : nat) (c : ascii) :
  nth_error l n = Some c -> l = (firstn n l ++ c :: skipn (S n) l)%list /\ length (firstn n l) = n.
Proof.
  revert l. induction n as [|n IH]; intros [|x l] H; simpl in *; try discriminate.
  - injection H as ->. split; reflexivity.
  - destruct (IH l H) as [E1 E2]. split; [f_equal; exact E1|f_equal; exact E2].
Qed.

Lemma firstn_length_app (a b : list ascii) (k : nat) :
  firstn (length a + k) (a ++ b) = (a ++ firstn k b)%list.
Proof. induction a as [|c a IH]; simpl; [reflexivity|]. rewrite IH. reflexivity. Qed.

Lemma tail_ok_inv (t : list ascii) :
  tail_ok t = true ->
  exists c t', t = (c :: "j" :: "s" :: "o" :: "n" :: t')%char%list /\ line_terminator c = false.
Proof.
  destruct t as [|c [|j [|s [|o [|n t']]]]]; simpl; try discriminate.
  intros H. repeat (apply andb_true_iff in H as [H ?]).
  repeat match goal with Hx : Ascii.eqb _ _ = true |- _ => apply Ascii.eqb_eq in Hx; subst end.
  exists c, t'. split; [reflexivity|]. apply negb_true_iff, H.
Qed.

Lemma group_not_slash (n j : list ascii) :
  forallb is_group_class n = true ->
  forall i, i <= span is_path_class (n ++ "."%char :: j) ->
  nth_error (n ++ "."%char :: j) i <> Some "/"%char.
Proof.
  induction n as [|c n IH]; intros Hn i Hi; simpl in *.
  - assert (i = 0) as -> by lia. discriminate.
  - apply andb_true_iff in Hn as [Hc Hn].
    destruct i as [|i].
    + intros [= ->]. discriminate.
    + destruct (is_path_class c); [|lia]. apply IH; [exact Hn|lia].
Qed.

(** What [x.match(objectTypeRegex)] returns is a real match: the matched
    text occurs in [x] and splits into the three parts of the pattern. *)
Lemma objectType_match_sound (x m g : string) :
  objectType_match x = Some (m, g) ->
  exists pre d c suf,
    x = (pre ++ m ++ suf)%string /\ m = (d ++ "/" ++ g ++ String c "json")%string /\
    d <> "" /\ all_chars is_path_class d = true /\
    g <> "" /\ all_chars is_group_class g = true /\ line_terminator c = false.
Proof.
  unfold objectType_match.
  destruct (search (list_ascii_of_string x)) as [[[l n1] n2]|] eqn:E; [|discriminate].
  intros [= <- <-].
  apply search_suffix in E as [pre [Ex Hm]].
  apply match_at_some in Hm as (Hn1 & Hs & Hn2 & Ht).
  set (R := skipn (S n1) l) in *.
  destruct (nth_error_split_at l n1 _ Hs) as [El Ld].
  assert (Hsp : n1 <= length l) by (pose proof (span_le is_path_class l); lia).
  assert (ER : R = (firstn n2 R ++ skipn n2 R)%list) by (symmetry; apply firstn_skipn).
  assert (Lg : length (firstn n2 R) = n2).
  { apply firstn_length_le. pose proof (span_le is_group_class R). lia. }
  destruct (tail_ok_inv _ Ht) as [c [t' [Et Hc]]].
  assert (Hfull : l = (firstn n1 l ++ "/"%char :: firstn n2 R ++
                       (c :: "j" :: "s" :: "o" :: "n" :: t')%char)%list).
  { rewrite El at 1. fold R. rewrite ER at 1. rewrite Et. reflexivity. }
  assert (Hm : firstn (n1 + 1 + n2 + 5) l =
               (firstn n1 l ++ "/"%char :: firstn n2 R ++ [c; "j"; "s"; "o"; "n"]%char)%list).
  { rewrite Hfull at 1. rewrite <- Ld at 1.
    replace (length (firstn n1 l) + 1 + n2 + 5) with (length (firstn n1 l) + (1 + n2 + 5)) by lia.
    rewrite firstn_length_app. simpl. f_equal. f_equal.
    rewrite <- Lg at 1. replace (length (firstn n2 R) + 5) with (length (firstn n2 R) + 5) by lia.
    rewrite firstn_length_app. reflexivity. }
  exists (string_of_list_ascii pre), (string_of_list_ascii (firstn n1 l)), c,
         (string_of_list_ascii t').
  split; [|split; [|split; [|split; [|split; [|split]]]]].
  - rewrite <- (string_of_list_ascii_of_string x), Ex.
    rewrite <- !string_of_list_ascii_app. f_equal. f_equal.
    rewrite Hm. rewrite Hfull at 1. rewrite <- !List.app_assoc. simpl.
    rewrite <- !List.app_assoc. reflexivity.
  - rewrite Hm, string_of_list_ascii_app. simpl. rewrite string_of_list_ascii_app. reflexivity.
  - destruct (firstn n1 l) eqn:F; [simpl in Ld; lia|discriminate].
  - unfold all_chars. rewrite list_ascii_of_string_of_list_ascii. apply span_firstn. lia.
  - destruct (firstn n2 R) eqn:F; [simpl in Lg; lia|discriminate].
  - unfold all_chars. rewrite list_ascii_of_string_of_list_ascii. apply span_firstn. lia.
  - exact Hc.
Qed.

Lemma firstn_length_exact (a b : list ascii) : firstn (length a) (a ++ b) = a.
Proof. induction a as [|c a IH]; simpl; [reflexivity|]. rewrite IH. reflexivity. Qed.

Lemma skipn_after (a b : list ascii) (x : ascii) : skipn (S (length a)) (a ++ x :: b) = b.
Proof. induction a as [|c a IH]; simpl; [reflexivity|exact IH]. Qed.

Lemma skipn_length_app (a b : list ascii) : skipn (length a) (a ++ b) = b.
Proof. induction a as [|c a IH]; simpl; [reflexivity|exact IH]. Qed.

Lemma nth_error_after (a b : list ascii) (x : ascii) (i : nat) :
  nth_error (a ++ x :: b) (length a + S i) = nth_error b i.
Proof. induction a as [|c a IH]; simpl; [reflexivity|exact IH]. Qed.

Lemma nth_error_at (a b : list ascii) (x : ascii) : nth_error (a ++ x :: b) (length a) = Some x.
Proof. induction a as [|c a IH]; simpl; [reflexivity|exact IH]. Qed.

Lemma string_nonempty_length (s : string) : s <> "" -> 1 <= length (list_ascii_of_string s).
Proof. destruct s; simpl; [contradiction|lia]. Qed.

Lemma search_at (l : list ascii) (n1 n2 : nat) :
  match_at l = Some (n1, n2) -> search l = Some (l, n1, n2).
Proof.
  intros H. destruct l as [|x l']; [simpl in H; discriminate|]. cbn [search]. rewrite H. reflexivity.
Qed.

(** Whenever the path contains a piece of the pattern's shape, the regex
    finds a match (not necessarily that piece). *)
Lemma objectType_match_complete (pre d g suf : string) (c : ascii) :
  d <> "" -> all_chars is_path_class d = true ->
  g <> "" -> all_chars is_group_class g = true -> line_terminator c = false ->
  objectType_match (pre ++ d ++ "/" ++ g ++ String c "json" ++ suf) <> None.
Proof.
  intros Hd Hdc Hg Hgc Hc. unfold objectType_match.
  rewrite !list_ascii_of_string_app. simpl. rewrite ?list_ascii_of_string_app.
  unfold all_chars in Hdc, Hgc.
  pose proof (string_nonempty_length d Hd) as Ld. pose proof (string_nonempty_length g Hg) as Lg.
  set (D := list_ascii_of_string d) in *. set (G := list_ascii_of_string g) in *.
  destruct (search _) as [[[l n1] n2]|] eqn:E; [discriminate|]. exfalso.
  eapply search_reach; [|exact E].
  unfold match_at. apply first_desc_reach with (m := length D).
  - rewrite span_app by exact Hdc. lia.
  - rewrite nth_error_at, skipn_after. cbn [Ascii.eqb Bool.eqb].
    apply first_desc_reach with (m := length G).
    + rewrite span_app by exact Hgc. lia.
    + rewrite skipn_length_app. simpl. rewrite Hc. discriminate.
Qed.

(** On a path [pre ++ d ++ "/" ++ n ++ ".json" ++ suf] whose prefix [pre]
    holds no character of [[/a-zA-Z0-9]], the regex matches from the
    start of [d], and the group is exactly [n]. *)
Lemma objectType_match_path (pre d n suf : string) :
  all_chars (fun c => negb (is_path_class c)) pre = true ->
  d <> "" -> all_chars is_path_class d = true ->
  n <> "" -> all_chars is_group_class n = true ->
  objectType_match (pre ++ d ++ "/" ++ n ++ ".json" ++ suf) =
    Some ((d ++ "/" ++ n ++ ".json")%string, n).
Proof.
  intros Hp Hd Hdc Hn Hnc. unfold objectType_match.
  rewrite !list_ascii_of_string_app. simpl. rewrite ?list_ascii_of_string_app.
  unfold all_chars in Hp, Hdc, Hnc.
  pose proof (string_nonempty_length d Hd) as Ld. pose proof (string_nonempty_length n Hn) as Ln.
  rewrite search_skip by exact Hp.
  set (D := list_ascii_of_string d) in *. set (N := list_ascii_of_string n) in *.
  set (J := ("j" :: "s" :: "o" :: "n" :: list_ascii_of_string suf)%char).
  assert (Hspan : span is_path_class (D ++ "/"%char :: N ++ "."%char :: J) =
                  length D + S (span is_path_class (N ++ "."%char :: J))).
  { rewrite span_app by exact Hdc. reflexivity. }
  assert (Hg : span is_group_class (N ++ "."%char :: J) = length N).
  { rewrite span_app by exact Hnc. simpl. lia. }
  assert (Hm : match_at (D ++ "/"%char :: N ++ "."%char :: J) = Some (length D, length N)).
  { unfold match_at. apply first_desc_at with (m := length D).
    - lia.
    - intros j Hj. rewrite Hspan in Hj.
      replace j with (length D + S (j - length D - 1)) by lia.
      rewrite nth_error_after.
      pose proof (group_not_slash N J Hnc (j - length D - 1) ltac:(lia)) as Hns.
      destruct (nth_error (N ++ "."%char :: J) (j - length D - 1)) as [c'|]; [|reflexivity].
      destruct (Ascii.eqb c' "/") eqn:Ec; [|reflexivity].
      apply Ascii.eqb_eq in Ec. subst c'. contradiction.
    - rewrite nth_error_at, skipn_after, Hg. cbn [Ascii.eqb Bool.eqb].
      destruct (length N) as [|k] eqn:EN; [lia|]. cbn [first_desc].
      rewrite <- EN, skipn_length_app. reflexivity. }
  rewrite (search_at _ _ _ Hm). rewrite skipn_after.
  replace (length D + 1 + length N + 5) with (length D + S (length N + 5)) by lia.
  rewrite firstn_length_app. cbn [firstn].
  rewrite (firstn_length_app N ("."%char :: J) 5).
  rewrite firstn_length_exact.
  rewrite string_of_list_ascii_app. simpl. rewrite string_of_list_ascii_app.
  unfold D, N. rewrite !string_of_list_ascii_of_string. reflexivity.
Qed.

Lemma string_app_assoc (a b c : string) : ((a ++ b) ++ c)%string = (a ++ b ++ c)%string.
Proof. induction a as [|x a IH]; [reflexivity|]. exact (f_equal (String x) IH). Qed.

(* ------------------------------------------------------------------ *)
(** ** Properties of the rest of the code *)

(** [x.match(objectTypeRegex)] returns a real match: the matched text
    [m] occurs in [x] and reads [d ++ "/" ++ g ++ c ++ "json"], with [d]
    non-empty over [[/a-zA-Z0-9]], the group [g] non-empty over [[a-z_]]
    and [c] any character but a line terminator. *)
Theorem objectTypeRegex_match_sound (x m g : string) :
  objectType_match x = Some (m, g) ->
  exists pre d c suf,
    x = (pre ++ m ++ suf)%string /\ m = (d ++ "/" ++ g ++ String c "json")%string /\
    d <> "" /\ all_chars is_path_class d = true /\
    g <> "" /\ all_chars is_group_class g = true /\ line_terminator c = false.
Proof. apply objectType_match_sound. Qed.

(** The match is [null] exactly when no piece of [x] has the pattern's
    shape: for instance a bare file name without a directory, or a base
    name with an upper-case letter or a hyphen. *)
Theorem objectTypeRegex_null_iff (x : string) :
  objectType_match x = None <->
  ~ exists pre d g c suf,
      x = (pre ++ d ++ "/" ++ g ++ String c "json" ++ suf)%string /\
      d <> "" /\ all_chars is_path_class d = true /\
      g <> "" /\ all_chars is_group_class g = true /\ line_terminator c = false.
Proof.
  split.
  - intros H (pre & d & g & c & suf & -> & Hd & Hdc & Hg & Hgc & Hc).
    exact (objectType_match_complete pre d g suf c Hd Hdc Hg Hgc Hc H).
  - intros Hn. destruct (objectType_match x) as [[m g]|] eqn:E; [|reflexivity].
    exfalso. apply Hn.
    destruct (objectType_match_sound x m g E) as (pre & d & c & suf & Ex & Em & R).
    exists pre, d, g, c, suf. split; [|exact R].
    rewrite Ex, Em, !string_app_assoc. reflexivity.
Qed.

(** On a path [pre ++ d ++ "/" ++ n ++ ".json" ++ suf] where [pre] has no
    character of [[/a-zA-Z0-9]], [d] is non-empty over that class and [n]
    non-empty over [[a-z_]], the object type is [n] and the file path the
    flows read is [d ++ "/" ++ n ++ ".json"]: [pre] and [suf] are dropped
    (so [./schemas/contact.json] is read as [/schemas/contact.json]). *)
Theorem objectTypeRegex_on_path (pre d n suf : string) :
  all_chars (fun c => negb (is_path_class c)) pre = true ->
  d <> "" -> all_chars is_path_class d = true ->
  n <> "" -> all_chars is_group_class n = true ->
  objectType_match (pre ++ d ++ "/" ++ n ++ ".json" ++ suf) =
    Some ((d ++ "/" ++ n ++ ".json")%string, n).
Proof. apply objectType_match_path. Qed.

Lemma obj_get_delete_same (o : obj) (k : string) : obj_get (js_delete o k) k = None.
Proof.
  induction o as [|[k0 v] o IH]; simpl; [reflexivity|].
  destruct (String.eqb k k0) eqn:E; simpl; [exact IH|]. rewrite E. exact IH.
Qed.

Lemma obj_get_delete_other (o : obj) (k k' : string) :
  k' <> k -> obj_get (js_delete o k) k' = obj_get o k'.
Proof.
  intros Hne. induction o as [|[k0 v] o IH]; simpl; [reflexivity|].
  destruct (String.eqb k k0) eqn:E; simpl.
  - apply String.eqb_eq in E. subst k0.
    destruct (String.eqb k' k) eqn:E'; [apply String.eqb_eq in E'; contradiction|exact IH].
  - rewrite IH. reflexivity.
Qed.

(** [pick(obj, key, def)] removes [key] from [obj] and leaves every other
    key as it was; so picking the same key again yields the default. *)
Theorem pick_removes_key (o : obj) (k : string) (def def' : option jval) :
  obj_get (fst (pick o k def)) k = None /\
  (forall k', k' <> k -> obj_get (fst (pick o k def)) k' = obj_get o k') /\
  snd (pick (fst (pick o k def)) k def') = def'.
Proof.
  unfold pick; simpl. split; [apply obj_get_delete_same|]. split.
  - intros k' Hk. apply obj_get_delete_other, Hk.
  - rewrite obj_get_delete_same. reflexivity.
Qed.

Lemma find_app_list {A} (f : A -> bool) (l1 l2 : list A) :
  List.find f (l1 ++ l2) = match List.find f l1 with Some x => Some x | None => List.find f l2 end.
Proof. induction l1 as [|x l1 IH]; simpl; [reflexivity|]. destruct (f x); [reflexivity|exact IH]. Qed.

Lemma keyBy_fold (l : list entry) (m : gmap string entry) (n : string) :
  fold_left (fun m e => <[name_key e := e]> m) l m !! n =
    match List.find (fun e => String.eqb (name_key e) n) (rev l) with
    | Some e => Some e
    | None => m !! n
    end.
Proof.
  revert m. induction l as [|e l IH]; intros m; simpl; [reflexivity|].
  rewrite IH, find_app_list. simpl.
  destruct (List.find _ (rev l)); [reflexivity|].
  destruct (String.eqb (name_key e) n) eqn:E.
  - apply String.eqb_eq in E. subst n. apply lookup_insert_eq.
  - apply String.eqb_neq in E. apply lookup_insert_ne, E.
Qed.

(** The index [getExistingSchemas] builds with [keyBy(results, "name")]
    files each remote record under its name (a missing name under
    ["undefined"]); of several records with the same name the last one
    is kept. *)
Theorem keyBy_name_lookup (results : list entry) (n : string) :
  keyBy_name results !! n = List.find (fun e => String.eqb (name_key e) n) (rev results).
Proof.
  unfold keyBy_name. rewrite keyBy_fold. destruct (List.find _ _); reflexivity.
Qed.

(** Against an empty remote property list, reconciliation deletes and
    updates nothing and creates every updated property. *)
Theorem reconcile_empty_current (U : list obj) : reconcile U [] = Some ([], U, []).
Proof.
  unfold reconcile.
  assert (E1 : toDelete U [] = Some []) by reflexivity.
  assert (E2 : toCreate U [] = U).
  { unfold toCreate. clear E1. induction U as [|x U IH]; [reflexivity|].
    cbn [List.filter]. rewrite IH. reflexivity. }
  assert (E3 : toUpdate U [] = Some []) by (apply filter_m_all_false; intros; reflexivity).
  rewrite E1, E2, E3. reflexivity.
Qed.

(** With an empty updated property list and string property names,
    reconciliation creates and updates nothing and deletes every remote
    property whose name contains neither [hs_] nor [hubspot_]. *)
Theorem reconcile_empty_updated (C : list obj) :
  Forall string_named C ->
  reconcile [] C =
    Some (List.filter (fun p => negb (reserved_substring (prop_name p))) C, [], []).
Proof.
  intros HC. unfold reconcile, toDelete, toCreate, toUpdate. simpl.
  rewrite (filter_m_total _ (fun p => negb (reserved_substring (prop_name p)))).
  - reflexivity.
  - intros p Hp. rewrite delete_pred_string by (rewrite List.Forall_forall in HC; auto).
    simpl. rewrite andb_true_r. reflexivity.
Qed.

Lemma filter_sublist {A} (f : A -> bool) (l : list A) : List.filter f l `sublist_of` l.
Proof.
  induction l as [|x l IH]; simpl; [constructor|].
  destruct (f x); [apply sublist_skip, IH|apply sublist_cons, IH].
Qed.

Lemma filter_m_sublist {A} (p : A -> option bool) (l r : list A) :
  filter_m p l = Some r -> r `sublist_of` l /\ forall x, In x r -> p x = Some true.
Proof.
  intros H. destruct (filter_m_defined p l r H) as [_ ->]. split; [apply filter_sublist|].
  intros x Hx. apply filter_In in Hx as [_ Hx].
  destruct (p x) as [[]|]; [reflexivity|discriminate|discriminate].
Qed.

(** Reconciliation splits the properties: toDelete is drawn from current
    and holds only names absent from updated; toCreate and toUpdate are
    drawn from updated, in its order, toCreate holding the properties
    with no same-named current property and toUpdate only properties
    with one; so no property is both created and updated. *)
Theorem reconcile_partition (U C d c u : list obj) :
  reconcile U C = Some (d, c, u) ->
  d `sublist_of` C /\ c `sublist_of` U /\ u `sublist_of` U /\
  (forall p, In p d -> find_by_name U (prop_name p) = None) /\
  (forall p, In p c -> find_by_name C (prop_name p) = None) /\
  (forall p, In p u -> find_by_name C (prop_name p) <> None) /\
  (forall p, In p c -> ~ In p u).
Proof.
  unfold reconcile. intros H.
  destruct (toDelete U C) as [d'|] eqn:Ed; [|discriminate].
  destruct (toUpdate U C) as [u'|] eqn:Eu; [|discriminate].
  injection H as <- <- <-.
  destruct (filter_m_sublist _ _ _ Ed) as [D1 D2].
  destruct (filter_m_sublist _ _ _ Eu) as [U1 U2].
  assert (Hc : forall p, In p (toCreate U C) -> find_by_name C (prop_name p) = None).
  { intros p Hp. unfold toCreate in Hp. apply filter_In in Hp as [_ Hp].
    destruct (find_by_name C (prop_name p)); [discriminate|reflexivity]. }
  assert (Hu : forall p, In p u' -> find_by_name C (prop_name p) <> None).
  { intros p Hp. specialize (U2 p Hp). unfold update_pred in U2.
    destruct (find_by_name C (prop_name p)); [discriminate|discriminate]. }
  split; [exact D1|]. split; [apply filter_sublist|]. split; [exact U1|]. split.
  - intros p Hp. specialize (D2 p Hp). unfold delete_pred in D2.
    destruct (js_includes (prop_name p) "hs_") as [[]|]; [discriminate| |discriminate].
    destruct (js_includes (prop_name p) "hubspot_") as [[]|]; [discriminate| |discriminate].
    destruct (find_by_name U (prop_name p)); [discriminate|reflexivity].
  - split; [exact Hc|]. split; [exact Hu|].
    intros p Hpc Hpu. exact (Hu p Hpu (Hc p Hpc)).
Qed.

Ltac solve_frames_call http :=
  repeat (solve_frames; try apply (call_frames http)).

Section ExtraFlows.

Variable http : request -> option string.
Variable lodash_get_parsed : gmap string entry -> string -> string.

Lemma deleteSchema_run (oid : string) :
  snd (deleteSchema http oid []) =
    Some (found (http (DeleteSchema oid)) && found (http (PurgeSchema oid))) /\
  requests (fst (deleteSchema http oid [])) =
    DeleteSchema oid :: (if found (http (DeleteSchema oid)) then [PurgeSchema oid] else []).
Proof.
  unfold deleteSchema, catchM, bindM, call, retM, emit, throwM. simpl.
  destruct (http (DeleteSchema oid)); destruct (http (PurgeSchema oid)); split; reflexivity.
Qed.

Lemma deleteSchema_frames (oid : string) : frames (deleteSchema http oid).
Proof. unfold deleteSchema. solve_frames_call http. Qed.

Lemma delete_one_frames (meta : gmap string entry) (f : local_file) :
  frames (delete_one http meta f).
Proof.
  unfold delete_one. destruct (index_get meta (lf_objectType f)); [|apply throwM_frames].
  apply bindM_frames; [apply deleteSchema_frames|].
  intros []; [apply emit_frames|apply retM_frames].
Qed.

(** [deleteSchema] never throws: it sends the schema DELETE, sends the
    purge only when that succeeded, and returns [true] exactly when both
    calls succeeded. *)
Theorem deleteSchema_outcome (oid : string) :
  snd (deleteSchema http oid []) =
    Some (found (http (DeleteSchema oid)) && found (http (PurgeSchema oid))) /\
  requests (fst (deleteSchema http oid [])) =
    DeleteSchema oid :: (if found (http (DeleteSchema oid)) then [PurgeSchema oid] else []).
Proof. apply deleteSchema_run. Qed.

(** When every matched identifier is a key of the index, the delete flow
    completes whatever the remote answers, and sends for each file in
    turn the schema DELETE for its remote id, followed by the purge when
    that DELETE succeeded. *)
Theorem deleteSchemas_all_indexed (meta : gmap string entry) (files : list local_file) :
  (forall f, In f files -> meta !! lf_objectType f <> None) ->
  snd (deleteSchemas http meta files []) = Some tt /\
  requests (fst (deleteSchemas http meta files [])) = flat_map (delete_requests http meta) files.
Proof.
  intros H. unfold deleteSchemas.
  assert (Hf : forall f, frames (delete_one http meta f)) by apply delete_one_frames.
  assert (Hb : forall f, In f files ->
            snd (delete_one http meta f []) = Some tt /\
            requests (fst (delete_one http meta f [])) = delete_requests http meta f).
  { intros f Hin. unfold delete_one, delete_requests, index_get.
    destruct (meta !! lf_objectType f) as [e|] eqn:E; [|exfalso; exact (H f Hin E)].
    rewrite bindM_run by (intros []; [apply emit_frames|apply retM_frames]).
    destruct (deleteSchema_run (str_opt (e_objectTypeId e))) as [S R].
    destruct (deleteSchema http _ []) as [t [b|]] eqn:Ed; simpl in S, R; [|discriminate].
    destruct b; simpl.
    - rewrite requests_app, R, app_nil_r. split; reflexivity.
    - rewrite app_nil_r, R. split; reflexivity. }
  assert (Hok : snd (for_each (delete_one http meta) files []) = Some tt).
  { destruct (snd (for_each (delete_one http meta) files [])) as [[]|] eqn:E; [reflexivity|].
    apply (for_each_fails _ files Hf) in E as [f [Hin Hn]].
    rewrite (proj1 (Hb f Hin)) in Hn. discriminate. }
  split; [exact Hok|].
  rewrite (for_each_trace_ok _ files Hf Hok), requests_concat, map_map, flat_map_concat_map.
  f_equal. apply map_ext_in. intros f Hin. apply Hb, Hin.
Qed.



Lemma association_names_app (a b : list request) :
  association_names (a ++ b) = (association_names a ++ association_names b)%list.
Proof. unfold association_names. apply flat_map_app. Qed.

(** The create flow submits one association request per entry of the
    files' [associations] arrays, whether or not the creates succeed,
    in file order and array order, named [<objectType>_to_<target>]. *)
Theorem createSchemas_association_names (meta : gmap string entry) (files : list local_file) :
  association_names (requests (fst (createSchemas http lodash_get_parsed meta files []))) =
    flat_map (fun f => map (fun t => (lf_objectType f ++ "_to_" ++ t)%string)
                           (declared_associations (lf_schema f))) files.
Proof.
  destruct (createSchemas_shape http lodash_get_parsed meta files) as (tc & ta & E & R1 & R2).
  rewrite E. simpl. rewrite requests_app, association_names_app, R1, R2.
  assert (N1 : forall l : list local_file,
            association_names (map (fun f => PostSchema (ls_name (lf_schema f))) l) = []).
  { induction l as [|f l IH]; [reflexivity|]. exact IH. }
  rewrite N1. simpl.
  assert (N2 : forall (g h : association -> string) (l : list association),
            association_names (map (fun a => PostAssociation (g a) (h a) (a_name a)) l) =
            map a_name l).
  { intros g h l. induction l as [|a l IH]; [reflexivity|]. simpl. f_equal. exact IH. }
  rewrite N2. unfold all_associations. clear E R1 R2.
  induction files as [|f fs IH]; [reflexivity|].
  cbn [flat_map]. rewrite map_app, IH. f_equal.
  unfold isolate_associations, declared_associations. rewrite map_map. reflexivity.
Qed.

(** In the update flow, a file whose type is in the index but whose local
    file or remote record has no [properties] list ends the whole run at
    once, before any request. *)
Theorem updateSchemas_missing_properties (meta : gmap string entry) (f : local_file)
    (fs : list local_file) (e : entry) (tr : list event) :
  meta !! lf_objectType f = Some e ->
  ls_properties (lf_schema f) = None \/ e_properties e = None ->
  updateSchemas http meta (f :: fs) tr = (tr, None).
Proof.
  intros Hm Hp. rewrite (updateSchemas_cons_some http meta f fs e Hm).
  unfold bindM at 1.
  assert (E : updateSchema http (ls_properties (lf_schema f)) e tr = (tr, None)).
  { unfold updateSchema. destruct Hp as [Hp|Hp]; rewrite Hp; [reflexivity|].
    destruct (ls_properties (lf_schema f)); reflexivity. }
  rewrite E. reflexivity.
Qed.

(** Two matched files with the same identifier (the same base name in
    two directories): the update of the first removes [properties] from
    the shared index record ([pick]), so the second one throws and the
    run ends there, after the first item's requests. *)
Theorem updateSchemas_duplicate_identifier (meta : gmap string entry) (f1 f2 : local_file)
    (fs : list local_file) (e : entry) (U : list obj) :
  lf_objectType f2 = lf_objectType f1 ->
  meta !! lf_objectType f1 = Some e ->
  ls_properties (lf_schema f1) = Some U ->
  snd (updateSchema http (Some U) e []) = Some tt ->
  updateSchemas http meta (f1 :: f2 :: fs) [] = (fst (updateSchema http (Some U) e []), None).
Proof.
  intros Hot Hm HU Hok. rewrite (updateSchemas_cons_some http meta f1 (f2 :: fs) e Hm), HU.
  unfold bindM at 1.
  destruct (updateSchema http (Some U) e []) as [t r] eqn:E. simpl in Hok. subst r.
  rewrite (updateSchemas_cons_some http _ f2 fs (picked e))
    by (rewrite Hot; apply lookup_insert_eq).
  unfold bindM. simpl.
  assert (P : updateSchema http (ls_properties (lf_schema f2)) (picked e) t = (t, None)).
  { unfold updateSchema. simpl. destruct (ls_properties (lf_schema f2)); reflexivity. }
  rewrite P. reflexivity.
Qed.


Lemma proto_member_id (k : string) (e : entry) :
  proto_member k = Some e -> e_objectTypeId e = None.
Proof.
  unfold proto_member. destruct (String.eqb k "__proto__"); [intros H; injection H as <-; reflexivity|].
  destruct (existsb _ _); [intros H; injection H as <-; reflexivity|discriminate].
Qed.

(** In the delete flow, an identifier that is not a key of the index but
    names a member inherited from [Object.prototype] (such as
    [constructor]) does not throw: its item deletes the schema
    [undefined], purges it when that DELETE succeeded, and the flow goes
    on with the next file. *)
Theorem deleteSchemas_inherited_identifier (meta : gmap string entry) (f : local_file)
    (fs : list local_file) :
  meta !! lf_objectType f = None -> proto_member (lf_objectType f) <> None ->
  exists t,
    deleteSchemas http meta (f :: fs) [] =
      ((t ++ fst (deleteSchemas http meta fs []))%list, snd (deleteSchemas http meta fs [])) /\
    requests t =
      DeleteSchema "undefined" ::
        (if found (http (DeleteSchema "undefined")) then [PurgeSchema "undefined"] else []).
Proof.
  intros H Hp. destruct (proto_member (lf_objectType f)) as [e|] eqn:P; [|contradiction].
  assert (D : delete_one http meta f =
            (do success <- deleteSchema http "undefined";
             if success then emit (ELog ("Deleted " ++ lf_objectType f)) else retM tt)).
  { unfold delete_one, index_get. rewrite H, P, (proto_member_id _ _ P). reflexivity. }
  unfold deleteSchemas. cbn [for_each].
  rewrite bindM_run by (intros _; apply for_each_frames, delete_one_frames).
  rewrite D. rewrite bindM_run by (intros []; [apply emit_frames|apply retM_frames]).
  destruct (deleteSchema_run "undefined") as [S R].
  destruct (deleteSchema http "undefined" []) as [t [b|]] eqn:E; simpl in S, R; [|discriminate].
  destruct b; simpl.
  - exists (t ++ [ELog ("Deleted " ++ lf_objectType f)])%list. split; [reflexivity|].
    rewrite requests_app, R. simpl. rewrite app_nil_r. reflexivity.
  - exists (t ++ [])%list. split; [reflexivity|]. rewrite app_nil_r. exact R.
Qed.

End ExtraFlows.

(** ** Instances of the properties above *)

Lemma objectTypeRegex_match_sound_witness :
  objectType_match "./schemas/contact.json" = Some ("/schemas/contact.json", "contact") /\
  exists pre d c suf,
    "./schemas/contact.json" = (pre ++ "/schemas/contact.json" ++ suf)%string /\
    "/schemas/contact.json" = (d ++ "/" ++ "contact" ++ String c "json")%string /\
    d <> "" /\ all_chars is_path_class d = true /\
    "contact" <> "" /\ all_chars is_group_class "contact" = true /\
    line_terminator c = false.
Proof.
  assert (E : objectType_match "./schemas/contact.json" = Some ("/schemas/contact.json", "contact"))
    by (vm_compute; reflexivity).
  split; [exact E|]. exact (objectTypeRegex_match_sound _ _ _ E).
Defined.

Lemma objectTypeRegex_on_path_witness :
  objectType_match "./schemas/contact.json" = Some ("/schemas/contact.json", "contact").
Proof.
  exact (objectTypeRegex_on_path "." "/schemas" "contact" "" eq_refl
           ltac:(discriminate) eq_refl ltac:(discriminate) eq_refl).
Defined.

Lemma pick_removes_key_witness :
  obj_get (fst (pick dup_a1 "name" None)) "type" = Some (JStr "string") /\
  snd (pick (fst (pick dup_a1 "name" None)) "name" (Some (JStr "x"))) = Some (JStr "x").
Proof.
  destruct (pick_removes_key dup_a1 "name" None (Some (JStr "x"))) as (_ & H2 & H3).
  split; [|exact H3].
  rewrite (H2 "type" ltac:(discriminate)). reflexivity.
Defined.

Lemma reconcile_empty_updated_witness :
  Forall string_named [[("name", JStr "legacy")]; [("name", JStr "hs_lastmodified")]] /\
  reconcile [] [[("name", JStr "legacy")]; [("name", JStr "hs_lastmodified")]] =
    Some ([[("name", JStr "legacy")]], [], []).
Proof.
  assert (HC : Forall string_named [[("name", JStr "legacy")]; [("name", JStr "hs_lastmodified")]])
    by (repeat constructor; eexists; reflexivity).
  split; [exact HC|]. exact (reconcile_empty_updated _ HC).
Defined.

Lemma reconcile_partition_witness :
  reconcile [dup_a2; [("name", JStr "new")]] [dup_a1; [("name", JStr "legacy")]] =
    Some ([[("name", JStr "legacy")]], [[("name", JStr "new")]], [dup_a2]) /\
  find_by_name [dup_a1; [("name", JStr "legacy")]] (prop_name dup_a2) <> None /\
  ~ In [("name", JStr "new")] [dup_a2].
Proof.
  assert (E : reconcile [dup_a2; [("name", JStr "new")]] [dup_a1; [("name", JStr "legacy")]] =
                Some ([[("name", JStr "legacy")]], [[("name", JStr "new")]], [dup_a2]))
    by (vm_compute; reflexivity).
  destruct (reconcile_partition _ _ _ _ _ E) as (_ & _ & _ & _ & _ & H6 & H7).
  split; [exact E|]. split.
  - apply H6. left. reflexivity.
  - apply H7. left. reflexivity.
Defined.

Lemma deleteSchemas_all_indexed_witness :
  snd (deleteSchemas http_ok meta_deal [deal_file] []) = Some tt /\
  requests (fst (deleteSchemas http_ok meta_deal [deal_file] [])) =
    [DeleteSchema "2-7"; PurgeSchema "2-7"].
Proof.
  assert (H : forall f, In f [deal_file] -> meta_deal !! lf_objectType f <> None).
  { intros f [<-|[]]. vm_compute. intros Hx. discriminate Hx. }
  destruct (deleteSchemas_all_indexed http_ok meta_deal [deal_file] H) as [S R].
  split; [exact S|]. rewrite R. reflexivity.
Defined.

Lemma updateSchemas_missing_properties_witness :
  updateSchemas http_ok meta_ab [file_of "a" (schema_of "a" None None); file_b] [] = ([], None).
Proof.
  apply (updateSchemas_missing_properties http_ok meta_ab _ _ remote_a []).
  - vm_compute. reflexivity.
  - left. reflexivity.
Defined.

Lemma updateSchemas_duplicate_identifier_witness :
  updateSchemas http_ok meta_ab [file_b; file_b] [] =
    (fst (updateSchema http_ok (Some [[("name", JStr "new")]]) remote_b []), None).
Proof.
  apply (updateSchemas_duplicate_identifier http_ok meta_ab file_b file_b [] remote_b).
  - reflexivity.
  - vm_compute. reflexivity.
  - reflexivity.
  - vm_compute. reflexivity.
Defined.


Lemma deleteSchemas_inherited_identifier_witness :
  exists t,
    deleteSchemas http_ok meta_deal [constructor_file; deal_file] [] =
      ((t ++ fst (deleteSchemas http_ok meta_deal [deal_file] []))%list,
       snd (deleteSchemas http_ok meta_deal [deal_file] [])) /\
    requests t = [DeleteSchema "undefined"; PurgeSchema "undefined"].
Proof.
  apply (deleteSchemas_inherited_identifier http_ok meta_deal constructor_file [deal_file]).
  - vm_compute. reflexivity.
  - vm_compute. intros Hx. discriminate Hx.
Defined.
